(** * Starman (Python port): preforking WSGI server

    A shallow embedding of [starman/server.py] (the Master: class [Server])
    and [starman/worker.py] (classes [Worker] and [RequestHandler]), and the
    properties of the specification checked against it.

    Conventions of the embedding.
    - Python [bytes], and [str] values obtained from or destined to a
      latin-1 codec, are Rocq strings of 8-bit characters; [decode('latin-1')]
      and [encode('latin-1')] are then the identity.
    - A Python [dict] whose iteration order matters (the worker map) is an
      association list in insertion order; the WSGI environment is a [gmap].
    - The operating system, the peer of a connection, the HTTP parser
      ([httptools]) and the application callable are outside the program:
      they appear as explicit state ([os], queues of pending events) or as
      parameters.
    - [print] calls have no effect on the modelled state and are left out. *)

From Stdlib Require Import ZArith Lia Ascii String.
From stdpp Require Import base option list strings pretty gmap.

Local Open Scope Z_scope.

(** ** Exceptions and outcomes *)

Inductive errno :=
  ESRCH | ECHILD | EAGAIN | ECONNABORTED | EPROTO | EPIPE | ECONNRESET | EINTR.

Global Instance errno_eq_dec : EqDecision errno.
Proof. solve_decision. Defined.

(** The Python exceptions that occur in the two modules.  [AppException] is
    any exception class of the application deriving from [Exception];
    [AppBaseException] one deriving from [BaseException] only (such as
    [SystemExit]), which [except Exception] does not catch. *)
Inductive exn :=
| OSError (e : errno)
| NameError (name : string)
| UnboundLocalError (name : string)
| KeyError (key : string)
| IndexError
| TypeError
| ValueError
| AssertionError (msg : string)
| HttpParserError
| HttpParserCallbackError
| HttpParserUpgrade
| AppException (tag : string)
| AppBaseException (tag : string).

Global Instance exn_eq_dec : EqDecision exn.
Proof. solve_decision. Defined.

(** [isinstance(e, Exception)] *)
Definition is_Exception (e : exn) : bool :=
  match e with AppBaseException _ => false | _ => true end.

(** [isinstance(e, socket.error)]: since Python 3.3 [socket.error] is [OSError]. *)
Definition is_socket_error (e : exn) : bool :=
  match e with OSError _ => true | _ => false end.

(** [isinstance(e, HttpParserError)]; [HttpParserCallbackError] derives from
    it, [HttpParserUpgrade] does not. *)
Definition is_HttpParserError (e : exn) : bool :=
  match e with HttpParserError | HttpParserCallbackError => true | _ => false end.

(** How a call ends: it returns, an exception propagates out of it, or it
    does not come back in the current state of its environment (it is
    suspended in a blocking system call, or busy-waits on one).  [OutOfFuel]
    is the model's own: a loop given too few iterations. *)
Inductive outcome (S A : Type) :=
| Ok (a : A) (s : S)
| Raised (e : exn) (s : S)
| Blocked (s : S)
| OutOfFuel.
Global Arguments Ok {S A} a s.
Global Arguments Raised {S A} e s.
Global Arguments Blocked {S A} s.
Global Arguments OutOfFuel {S A}.

Definition final_state {S A} (r : outcome S A) : option S :=
  match r with
  | Ok _ s | Raised _ s | Blocked s => Some s
  | OutOfFuel => None
  end.

Definition returns {S A} (r : outcome S A) : bool :=
  match r with Ok _ _ => true | _ => false end.

Definition bind {S A B} (m : S -> outcome S A) (k : A -> S -> outcome S B)
  : S -> outcome S B :=
  fun s => match m s with
           | Ok a s' => k a s'
           | Raised e s' => Raised e s'
           | Blocked s' => Blocked s'
           | OutOfFuel => OutOfFuel
           end.

Notation "m ;;; k" := (bind m (fun _ => k))
  (at level 100, right associativity).

(** A statement that cannot fail, as a computation. *)
Definition lift {S} (f : S -> S) : S -> outcome S unit := fun s => Ok tt (f s).

(** ** Python dictionaries with integer keys, in insertion order *)

Section Dict.
Context {V : Type}.
Abbreviation dict := (list (Z * V)).

Definition keys (d : dict) : list Z := d.*1.

Definition contains (k : Z) (d : dict) : bool :=
  bool_decide (k ∈ keys d).

(** [d[k] = v]: an existing key keeps its position. *)
Fixpoint setitem (k : Z) (v : V) (d : dict) : dict :=
  match d with
  | [] => [(k, v)]
  | (k', v') :: d' =>
      if bool_decide (k' = k) then (k, v) :: d' else (k', v') :: setitem k v d'
  end.

(** [del d[k]] for a key that is present, and [d.pop(k, None)]. *)
Definition delitem (k : Z) (d : dict) : dict :=
  filter (fun kv => kv.1 ≠ k) d.
End Dict.

(** ** The operating system as the Master sees it *)

Inductive signal := SIGHUP | SIGQUIT | SIGTERM | SIGINT | SIGTTIN | SIGTTOU.

Global Instance signal_eq_dec : EqDecision signal.
Proof. solve_decision. Defined.

(** A child process is running, or has exited and waits to be reaped. *)
Inductive pstatus := Running | Exited (status : Z).

Definition has_exited (c : Z * pstatus) : bool :=
  match c.2 with Exited _ => true | Running => false end.

(** [children]: the Master's child processes not yet reaped, in fork order.
    [delivered]: every signal sent with [os.kill], in order. *)
Record os := mk_os {
  children : list (Z * pstatus);
  next_pid : Z;
  clock : Z;
  delivered : list (Z * signal)
}.

(** [os.fork()] seen from the parent: a new running child.  The call is
    taken to succeed. *)
Definition os_fork (o : os) : Z * os :=
  (next_pid o,
   mk_os (children o ++ [(next_pid o, Running)]) (next_pid o + 1) (clock o)
         (delivered o)).

(** [os.kill(pid, sig)]: [ESRCH] when no such process exists. *)
Definition os_kill (pid : Z) (sig : signal) (o : os) : os * option errno :=
  if bool_decide (pid ∈ (children o).*1)
  then (mk_os (children o) (next_pid o) (clock o) (delivered o ++ [(pid, sig)]), None)
  else (o, Some ESRCH).

Inductive wait_result :=
| WPid (pid status : Z) (o : os)   (* an exited child, now reaped *)
| WNone                            (* [(0, 0)]: WNOHANG and nothing to reap *)
| WError (e : errno)
| WBlocks.                         (* no child has exited: the call waits *)

Fixpoint take_exited (cs : list (Z * pstatus))
  : option (Z * Z * list (Z * pstatus)) :=
  match cs with
  | [] => None
  | (p, Exited st) :: cs' => Some (p, st, cs')
  | (p, Running) :: cs' =>
      match take_exited cs' with
      | Some (q, st, rest) => Some (q, st, (p, Running) :: rest)
      | None => None
      end
  end.

(** [os.waitpid(-1, options)], with [nohang] for [options == os.WNOHANG] and
    [options == 0] otherwise.  Of several exited children the one forked
    first is reaped. *)
Definition os_waitpid (nohang : bool) (o : os) : wait_result :=
  match children o with
  | [] => WError ECHILD
  | _ => match take_exited (children o) with
         | Some (p, st, rest) =>
             WPid p st (mk_os rest (next_pid o) (clock o) (delivered o))
         | None => if nohang then WNone else WBlocks
         end
  end.

(** ** Sockets *)

(** What the next [recv] on a client socket gives: data, [b''] once the
    peer has closed, or a socket error. *)
Inductive recv_event :=
| RecvData (data : string)
| RecvClosed
| RecvError (e : errno).

(** An accepted connection.  [incoming] is what the peer will deliver, one
    entry per [recv]; [sent] is every byte written with [sendall], in
    order. *)
Record connection := mk_connection {
  sockname : string * Z;
  peername : string * Z;
  incoming : list recv_event;
  sent : string;
  closed : bool
}.

Inductive accept_event :=
| AcceptConn (c : connection)
| AcceptError (e : errno).

Inductive endpoint :=
| TcpEndpoint (host : string) (port : Z)
| UnixEndpoint (path : string).

(** A listening socket; [pending] is its accept queue, one entry per call
    of [accept]. *)
Record listener := mk_listener {
  bound_to : option endpoint;      (* [None]: inherited from a supervisor *)
  backlog : Z;
  pending : list accept_event;
  listener_closed : bool
}.

(** The fields of the [options] object that the two modules read. *)
Module Options.
Record t := mk {
  listen : list string;
  workers : Z;
  max_requests : Z;
  disable_keepalive : bool;
  preload_app : bool;
  backlog : Z;
  version : string
}.
End Options.

(** ** server.py: class [Server], the Master *)

Module Server.

Record t := mk {
  sockets : list listener;
  workers : list (Z * Z);        (* pid -> spawn time, in insertion order *)
  running : bool;
  worker_count : Z;
  _hup_received : bool;
  _quit_received : bool;
  _ttin_received : bool;
  _ttou_received : bool
}.

(** The Master object together with the operating system it acts on. *)
Record world := mk_world { self : t; sys : os }.

Definition with_workers (f : list (Z * Z) -> list (Z * Z)) (s : t) : t :=
  mk (sockets s) (f (workers s)) (running s) (worker_count s)
     (_hup_received s) (_quit_received s) (_ttin_received s) (_ttou_received s).

Definition with_worker_count (n : Z) (s : t) : t :=
  mk (sockets s) (workers s) (running s) n
     (_hup_received s) (_quit_received s) (_ttin_received s) (_ttou_received s).

Definition with_running (b : bool) (s : t) : t :=
  mk (sockets s) (workers s) b (worker_count s)
     (_hup_received s) (_quit_received s) (_ttin_received s) (_ttou_received s).

Definition with_flags (hup quit ttin ttou : bool) (s : t) : t :=
  mk (sockets s) (workers s) (running s) (worker_count s) hup quit ttin ttou.

Definition on_self (f : t -> t) (w : world) : world := mk_world (f (self w)) (sys w).

(** [__init__] *)
Definition init (opts : Options.t) : t :=
  mk [] [] true (Options.workers opts) false false false false.

(** [len(self.workers)] *)
Definition live (w : world) : Z := Z.of_nat (length (workers (self w))).

(** The handlers installed by [setup_signal_handlers]: they set a flag. *)
Definition handle_hup (s : t) : t :=
  with_flags true (_quit_received s) (_ttin_received s) (_ttou_received s) s.
Definition handle_quit (s : t) : t :=
  with_flags (_hup_received s) true (_ttin_received s) (_ttou_received s) s.
Definition handle_ttin (s : t) : t :=
  with_flags (_hup_received s) (_quit_received s) true (_ttou_received s) s.
Definition handle_ttou (s : t) : t :=
  with_flags (_hup_received s) (_quit_received s) (_ttin_received s) true s.

(** The table [SIGNALS]. *)
Definition SIGNALS (sig : signal) : t -> t :=
  match sig with
  | SIGHUP => handle_hup
  | SIGQUIT | SIGTERM | SIGINT => handle_quit
  | SIGTTIN => handle_ttin
  | SIGTTOU => handle_ttou
  end.

(** One iteration of the loop of [kill_workers]: [os.kill(pid, sig)], and
    on [ESRCH] the pid is dropped from the map. *)
Definition kill_worker (sig : signal) (w : world) (pid : Z) : world :=
  match os_kill pid sig (sys w) with
  | (o, None) => mk_world (self w) o
  | (o, Some e) =>
      if bool_decide (e = ESRCH)
      then mk_world (with_workers (delitem pid) (self w)) o
      else mk_world (self w) o
  end.

(** [kill_workers(sig)]: the loop runs over a snapshot of the keys. *)
Definition kill_workers (sig : signal) (w : world) : world :=
  fold_left (kill_worker sig) (keys (workers (self w))) w.

(** [spawn_worker()], parent side: [self.workers[pid] = time.time()]. *)
Definition spawn_worker (w : world) : world :=
  let '(pid, o) := os_fork (sys w) in
  mk_world (with_workers (setitem pid (clock o)) (self w)) o.

(** [spawn_workers()]: [while len(self.workers) < self.worker_count]. *)
Fixpoint spawn_workers_loop (fuel : nat) (w : world) : outcome world unit :=
  if bool_decide (live w < worker_count (self w)) then
    match fuel with
    | O => OutOfFuel
    | S n => spawn_workers_loop n (spawn_worker w)
    end
  else Ok tt w.

Definition spawn_workers (w : world) : outcome world unit :=
  spawn_workers_loop (Z.to_nat (worker_count (self w) - live w)) w.

(** [options = 0 if not block else os.WNOHANG], as the flag WNOHANG. *)
Definition waitpid_nohang (block : bool) : bool :=
  if negb block then false else true.

(** The body of the loop of [reap_workers] after [waitpid] has returned
    [pid]: the new state, and [true] for [break]. *)
Definition reaped (block : bool) (pid : Z) (w : world) : world * bool :=
  if bool_decide (pid = 0) && negb block then (w, true)
  else
    let w1 := if contains pid (workers (self w))
              then on_self (with_workers (delitem pid)) w else w in
    if block && bool_decide (workers (self w1) = []) then (w1, true)
    else (w1, false).

(** [reap_workers(block)].  When [waitpid] returns [(0, 0)] and the loop
    goes round again, the next iterations find the same state and do the
    same: the call busy-waits until a child exits, which is [Blocked]. *)
Fixpoint reap_loop (fuel : nat) (block : bool) (w : world) : outcome world unit :=
  match fuel with
  | O => OutOfFuel
  | S n =>
      match os_waitpid (waitpid_nohang block) (sys w) with
      | WError e =>
          if bool_decide (e = ECHILD) then Ok tt w else Raised (OSError e) w
      | WBlocks => Blocked w
      | WNone =>
          let '(w1, brk) := reaped block 0 w in
          if brk then Ok tt w1 else Blocked w1
      | WPid pid _ o =>
          let '(w1, brk) := reaped block pid (mk_world (self w) o) in
          if brk then Ok tt w1 else reap_loop n block w1
      end
  end.

Definition reap_workers (block : bool) (w : world) : outcome world unit :=
  reap_loop (S (length (children (sys w)))) block w.

(** [maintain_worker_count()] *)
Definition maintain_worker_count (w : world) : world :=
  let diff := worker_count (self w) - live w in
  if bool_decide (diff > 0) then
    Nat.iter (Z.to_nat diff) spawn_worker w
  else if bool_decide (diff < 0) then
    let pids_to_kill := take (Z.to_nat (Z.abs diff)) (keys (workers (self w))) in
    fold_left (fun w' _ => kill_workers SIGTERM w') pids_to_kill w
  else w.

(** [graceful_restart()] *)
Definition graceful_restart : world -> outcome world unit :=
  lift (kill_workers SIGTERM) ;;;
  reap_workers true ;;;
  spawn_workers.

(** [check_signals()] *)
Definition check_signals : world -> outcome world unit :=
  (fun w => if _hup_received (self w)
            then (lift (on_self (fun s => with_flags false (_quit_received s)
                                   (_ttin_received s) (_ttou_received s) s)) ;;;
                  graceful_restart) w
            else Ok tt w) ;;;
  lift (on_self (fun s =>
    if _quit_received s
    then with_running false
           (with_flags (_hup_received s) false (_ttin_received s) (_ttou_received s) s)
    else s)) ;;;
  lift (on_self (fun s =>
    if _ttin_received s
    then with_worker_count (worker_count s + 1)
           (with_flags (_hup_received s) (_quit_received s) false (_ttou_received s) s)
    else s)) ;;;
  lift (on_self (fun s =>
    if _ttou_received s
    then let s1 := with_flags (_hup_received s) (_quit_received s)
                              (_ttin_received s) false s in
         if bool_decide (worker_count s1 > 1)
         then with_worker_count (worker_count s1 - 1) s1 else s1
    else s)).

(** [time.sleep(1)] *)
Definition sleep (w : world) : world :=
  mk_world (self w)
    (mk_os (children (sys w)) (next_pid (sys w)) (clock (sys w) + 1)
           (delivered (sys w))).

(** The body of the loop of [master_loop]: one supervision tick.  None of
    the calls raises [InterruptedError] or [KeyboardInterrupt] here. *)
Definition tick : world -> outcome world unit :=
  check_signals ;;;
  reap_workers false ;;;
  lift maintain_worker_count ;;;
  lift sleep.

(** A running child exits with [status]; it stays in the table until it
    is reaped. *)
Definition child_exits (pid status : Z) (o : os) : os :=
  mk_os (map (fun c => match c with
                       | (p, Running) =>
                           if bool_decide (p = pid) then (p, Exited status) else c
                       | _ => c
                       end) (children o))
        (next_pid o) (clock o) (delivered o).

(** What can happen to a Master and its operating system: a signal is
    delivered (its handler runs), a child exits, or the Master runs one of
    its methods as far as it gets. *)
Inductive step : world -> world -> Prop :=
| step_signal sig w : step w (on_self (SIGNALS sig) w)
| step_child_exits pid status w :
    step w (mk_world (self w) (child_exits pid status (sys w)))
| step_spawn_workers w w' :
    final_state (spawn_workers w) = Some w' -> step w w'
| step_check_signals w w' :
    final_state (check_signals w) = Some w' -> step w w'
| step_reap_workers block w w' :
    final_state (reap_workers block w) = Some w' -> step w w'
| step_maintain_worker_count w : step w (maintain_worker_count w)
| step_kill_workers sig w : step w (kill_workers sig w)
| step_sleep w : step w (sleep w).

(** [listen_addr.rsplit(':', 1)] for an address that contains [':']:
    the text before and after the last colon. *)
Fixpoint rsplit_colon (s : string) : option (string * string) :=
  match s with
  | EmptyString => None
  | String c s' =>
      match rsplit_colon s' with
      | Some (h, p) => Some (String c h, p)
      | None => if bool_decide (c = ":"%char) then Some (EmptyString, s') else None
      end
  end.

Section Setup.
(** Python's [int] on a text ([None]: [ValueError]), and whether the
    operating system lets the process bind an address. *)
Variable py_int : string -> option Z.
Variable os_bind : endpoint -> option errno.

(** One iteration of the [for] loop of [setup_sockets]. *)
Definition bind_listener (opts : Options.t) (listen_addr : string) (s : t)
  : outcome t unit :=
  let bound addr :=
    match os_bind addr with
    | Some e => Raised (OSError e) s
    | None =>
        Ok tt (mk (sockets s ++ [mk_listener (Some addr) (Options.backlog opts) [] false])
                  (workers s) (running s) (worker_count s) (_hup_received s)
                  (_quit_received s) (_ttin_received s) (_ttou_received s))
    end in
  match rsplit_colon listen_addr with
  | Some (host, port) =>
      match py_int port with
      | Some n => bound (TcpEndpoint host n)
      | None => Raised ValueError s
      end
  | None => bound (UnixEndpoint listen_addr)
  end.

Fixpoint bind_listeners (opts : Options.t) (addrs : list string) (s : t)
  : outcome t unit :=
  match addrs with
  | [] => Ok tt s
  | a :: addrs' => (bind_listener opts a ;;; bind_listeners opts addrs') s
  end.

(** [setup_sockets()] when the environment has no [SERVER_STARTER_PORT]. *)
Definition setup_sockets (opts : Options.t) (s : t) : outcome t unit :=
  bind_listeners opts (Options.listen opts) s.
End Setup.

End Server.

(** ** Text helpers *)

Definition CRLF : string := String "013" (String "010" EmptyString).

(** [str.upper] and [str.lower] on ASCII letters.  The header names that the
    parser delivers are HTTP tokens, hence ASCII; and a text is equal to an
    ASCII constant after Python's [lower] exactly when it is after this one,
    because no other character is lowered to an ASCII one. *)
Definition upper_char (c : ascii) : ascii :=
  let n := N_of_ascii c in
  if (97 <=? n)%N && (n <=? 122)%N then ascii_of_N (n - 32) else c.

Definition lower_char (c : ascii) : ascii :=
  let n := N_of_ascii c in
  if (65 <=? n)%N && (n <=? 90)%N then ascii_of_N (n + 32) else c.

Fixpoint map_chars (f : ascii -> ascii) (s : string) : string :=
  match s with
  | EmptyString => EmptyString
  | String c s' => String (f c) (map_chars f s')
  end.

Definition upper : string -> string := map_chars upper_char.
Definition lower : string -> string := map_chars lower_char.

(** [s.replace(a, b)] for single characters. *)
Definition replace (a b : ascii) : string -> string :=
  map_chars (fun c => if bool_decide (c = a) then b else c).

(** [s.partition(sep)] for a single character: the text before the first
    [sep] and the text after it (empty when there is none). *)
Fixpoint partition (sep : ascii) (s : string) : string * string :=
  match s with
  | EmptyString => (EmptyString, EmptyString)
  | String c s' =>
      if bool_decide (c = sep) then (EmptyString, s')
      else let '(a, b) := partition sep s' in (String c a, b)
  end.

(** [sep.join(parts)] *)
Fixpoint join (sep : string) (parts : list string) : string :=
  match parts with
  | [] => EmptyString
  | [p] => p
  | p :: ps => p +:+ sep +:+ join sep ps
  end.

(** [str(n)] for an integer. *)
Definition str (n : Z) : string := pretty n.

(** ** The application callable and the parser, as the server meets them *)

(** The iterable returned by the application, as the [for] loop of
    [write_response] unfolds it: it ends, yields a chunk, raises, or (a
    generator body) calls [start_response] first; [k_raised] is how it goes
    on when that call raises. *)
Inductive body_iter :=
| Stop
| Yield (chunk : string) (rest : body_iter)
| IterRaise (e : exn)
| IterStart (status : string) (headers : list (string * string))
            (exc_info : option exn) (k_ok k_raised : body_iter).

(** A run of [self.app(environ, start_response)]: it returns an iterable
    (with or without a [close] method), raises, or calls [start_response]
    and goes on.  The [write] callable that [start_response] returns is not
    used by these applications. *)
Inductive app_call :=
| Return (resp_iter : body_iter) (has_close : bool)
| AppRaise (e : exn)
| Start (status : string) (headers : list (string * string))
        (exc_info : option exn) (k_ok k_raised : app_call).

(** The callbacks that [httptools] invokes, in the order it invokes them
    while it reads a chunk. *)
Inductive event :=
| MessageBegin
| Url (url : string)
| Header (name value : string)
| HeadersComplete (method : string)    (* with [parser.get_method()] *)
| Body (data : string)
| MessageComplete.

(** Values of the WSGI environment. *)
Inductive env_value :=
| EStr (s : string)
| EPair (a b : Z)
| EBool (b : bool)
| EInput              (* [self.body] *)
| EErrors             (* [sys.stderr] *)
| EInformational.     (* [self.write_informational] *)

(** ** worker.py: class [RequestHandler] *)

Module RequestHandler.
Section Handler.
(** The state of an [HttpRequestParser], and [feed_data]: the new state,
  the callbacks to invoke in order, and the exception with which the
  parser itself ends the call, if any. *)
Context {P : Type}.
Variable feed_data : P -> string -> P * list event * option exn.
(** [formatdate(time.time(), usegmt=True)] *)
Variable date : string.

(** [response] is [None] for the empty dict.  [handled] and
  [iters_closed] are instrumentation: the number of calls of
  [handle_request] and of [resp_iter.close()]. *)
Record t := mk {
app : gmap string env_value -> string -> app_call;
client : connection;
addr : string * Z;
options : Options.t;
parser : P;
headers : list (string * string);
body : string;
body_pos : nat;
environ : gmap string env_value;
response : option (string * list (string * string));
handled : nat;
iters_closed : nat
}.

Definition with_client (c : connection) (h : t) : t :=
mk (app h) c (addr h) (options h) (parser h) (headers h) (body h)
   (body_pos h) (environ h) (response h) (handled h) (iters_closed h).
Definition with_parser (p : P) (h : t) : t :=
mk (app h) (client h) (addr h) (options h) p (headers h) (body h)
   (body_pos h) (environ h) (response h) (handled h) (iters_closed h).
Definition with_headers (hs : list (string * string)) (h : t) : t :=
mk (app h) (client h) (addr h) (options h) (parser h) hs (body h)
   (body_pos h) (environ h) (response h) (handled h) (iters_closed h).
Definition with_body (b : string) (pos : nat) (h : t) : t :=
mk (app h) (client h) (addr h) (options h) (parser h) (headers h) b
   pos (environ h) (response h) (handled h) (iters_closed h).
Definition with_environ (e : gmap string env_value) (h : t) : t :=
mk (app h) (client h) (addr h) (options h) (parser h) (headers h) (body h)
   (body_pos h) e (response h) (handled h) (iters_closed h).
Definition with_response (r : option (string * list (string * string))) (h : t) : t :=
mk (app h) (client h) (addr h) (options h) (parser h) (headers h) (body h)
   (body_pos h) (environ h) r (handled h) (iters_closed h).
Definition with_counts (n m : nat) (h : t) : t :=
mk (app h) (client h) (addr h) (options h) (parser h) (headers h) (body h)
   (body_pos h) (environ h) (response h) n m.

(** [__init__]; [parser0] is the state of a new [HttpRequestParser]. *)
Definition init (parser0 : P) (the_app : gmap string env_value -> string -> app_call)
  (client_sock : connection) (client_addr : string * Z) (opts : Options.t) : t :=
mk the_app client_sock client_addr opts parser0 [] "" 0%nat ∅ None 0%nat 0%nat.

(** [self.client.sendall(data)]; the peer keeps reading. *)
Definition sendall (data : string) (h : t) : t :=
with_client
  (mk_connection (sockname (client h)) (peername (client h))
                 (incoming (client h)) (sent (client h) +:+ data)
                 (closed (client h))) h.

(** [self.client.close()] *)
Definition close (h : t) : t :=
with_client
  (mk_connection (sockname (client h)) (peername (client h))
                 (incoming (client h)) (sent (client h)) true) h.

Definition on_message_begin (h : t) : t :=
with_environ
  (<["wsgi.version" := EPair 1 0]>
   (<["wsgi.url_scheme" := EStr "http"]>
   (<["wsgi.input" := EInput]>
   (<["wsgi.errors" := EErrors]>
   (<["wsgi.multithread" := EBool false]>
   (<["wsgi.multiprocess" := EBool true]>
   (<["wsgi.run_once" := EBool false]>
   (<["SERVER_SOFTWARE" := EStr ("Starman/" +:+ Options.version (options h))]>
   (<["REQUEST_METHOD" := EStr ""]>
   (<["SCRIPT_NAME" := EStr ""]>
   (<["PATH_INFO" := EStr ""]>
   (<["QUERY_STRING" := EStr ""]>
   (<["SERVER_NAME" := EStr (sockname (client h)).1]>
   (<["SERVER_PORT" := EStr (str (sockname (client h)).2)]>
   (<["REMOTE_ADDR" := EStr (addr h).1]>
   (<["REMOTE_PORT" := EStr (str (addr h).2)]>
   (<["wsgix.informational" := EInformational]> ∅)))))))))))))))))
  (with_body "" 0%nat (with_headers [] h)).

Definition on_url (url : string) (h : t) : t :=
let '(path, query) := partition "?" url in
with_environ
  (<["QUERY_STRING" := EStr query]>
   (<["PATH_INFO" := EStr path]>
   (<["RAW_URI" := EStr url]> (environ h)))) h.

Definition on_header (name value : string) (h : t) : t :=
let name := replace "-" "_" (upper name) in
let name := if bool_decide (name ∈ ["CONTENT_TYPE"; "CONTENT_LENGTH"])
            then name else "HTTP_" +:+ name in
with_headers (headers h ++ [(replace "_" "-" name, value)])
  (with_environ (<[name := EStr value]> (environ h)) h).

(** [BytesIO.write] at position [pos] (zero-padding past the end). *)
Definition bytes_write (data b : string) (pos : nat) : string * nat :=
let pad := fold_right String EmptyString
             (replicate (pos - String.length b) "000"%char) in
let after := (pos + String.length data)%nat in
(substring 0 pos (b +:+ pad) +:+ data
   +:+ substring after (String.length b - after) b, after).

Definition on_body (data : string) (h : t) : t :=
let '(b, pos) := bytes_write data (body h) (body_pos h) in with_body b pos h.

(** [environ.get('HTTP_EXPECT', '').lower() == '100-continue'] *)
Definition expects_continue (h : t) : bool :=
match environ h !! "HTTP_EXPECT" with
| Some (EStr v) => bool_decide (lower v = "100-continue")
| _ => false
end.

Definition on_headers_complete (method : string) (h : t) : t :=
let h := with_environ (<["REQUEST_METHOD" := EStr method]> (environ h)) h in
if expects_continue h
then sendall ("HTTP/1.1 100 Continue" +:+ CRLF +:+ CRLF) h
else h.

Definition start_response (status : string) (hdrs : list (string * string))
  (exc_info : option exn) (h : t) : outcome t unit :=
match exc_info with
| Some e =>
    if bool_decide (is_Some (response h)) then Raised e h
    else Ok tt (with_response (Some (status, hdrs)) h)
| None =>
    if bool_decide (is_Some (response h))
    then Raised (AssertionError "start_response called a second time without exc_info") h
    else Ok tt (with_response (Some (status, hdrs)) h)
end.

(** The [for chunk in resp_iter] loop of [write_response]. *)
Fixpoint send_body (resp_iter : body_iter) (h : t) : outcome t unit :=
match resp_iter with
| Stop => Ok tt h
| Yield chunk rest =>
    send_body rest (if bool_decide (chunk = "") then h else sendall chunk h)
| IterRaise e => Raised e h
| IterStart status hdrs exc_info k_ok k_raised =>
    match start_response status hdrs exc_info h with
    | Ok _ h' => send_body k_ok h'
    | Raised _ h' => send_body k_raised h'
    | r => r
    end
end.

(** [write_response(resp_iter)].  The two [append] calls act on the list
  object held by [self.response], so they are visible in it later. *)
Definition write_response (resp_iter : body_iter) (h : t) : outcome t unit :=
match response h with
| None => Raised (KeyError "status") h
| Some (status, hdrs) =>
    let has_date := existsb (fun x => bool_decide (lower x.1 = "date")) hdrs in
    let hdrs := if negb has_date then hdrs ++ [("Date", date)] else hdrs in
    let hdrs := hdrs ++ [("Server", "Starman/" +:+ Options.version (options h))] in
    let h := with_response (Some (status, hdrs)) h in
    let header_data :=
      ("HTTP/1.1 " +:+ status) :: map (fun x => x.1 +:+ ": " +:+ x.2) hdrs in
    send_body resp_iter (sendall (join CRLF header_data +:+ CRLF +:+ CRLF) h)
end.

(** [resp_iter = self.app(self.environ, self.start_response)] *)
Fixpoint run_app (a : app_call) (h : t) : outcome t (body_iter * bool) :=
match a with
| Return resp_iter has_close => Ok (resp_iter, has_close) h
| AppRaise e => Raised e h
| Start status hdrs exc_info k_ok k_raised =>
    match start_response status hdrs exc_info h with
    | Ok _ h' => run_app k_ok h'
    | Raised _ h' => run_app k_raised h'
    | Blocked h' => Blocked h'
    | OutOfFuel => OutOfFuel
    end
end.

(** The [except Exception] clause of [handle_request]. *)
Definition on_exception : t -> outcome t unit :=
(fun h => if bool_decide (is_Some (response h)) then Ok tt h
          else start_response "500 Internal Server Error" [] None h) ;;;
write_response (Yield "Internal Server Error" Stop).

(** The [finally] clause of [handle_request], run on the way out with
  outcome [r].  [resp_iter] is [None] when the name was never bound,
  and else tells whether the iterable has a [close] method.  An
  exception raised here replaces the one on its way out. *)
Definition finally_close (resp_iter : option bool) (r : outcome t unit)
: outcome t unit :=
match resp_iter with
| None =>
    match final_state r with
    | Some h => Raised (UnboundLocalError "resp_iter") h
    | None => r
    end
| Some false => r
| Some true =>
    let closing h := with_counts (handled h) (S (iters_closed h)) h in
    match r with
    | Ok a h => Ok a (closing h)
    | Raised e h => Raised e (closing h)
    | r => r
    end
end.

(** Instrumentation: one more call of [handle_request]. *)
Definition entered (h : t) : t := with_counts (S (handled h)) (iters_closed h) h.

Definition handle_request (h : t) : outcome t unit :=
let h := entered h in
match run_app (app h (environ h) (body h)) h with
| Ok (resp_iter, has_close) h1 =>
    match write_response resp_iter h1 with
    | Raised e h2 =>
        finally_close (Some has_close)
          (if is_Exception e then on_exception h2 else Raised e h2)
    | r => finally_close (Some has_close) r
    end
| Raised e h1 =>
    finally_close None (if is_Exception e then on_exception h1 else Raised e h1)
| Blocked h1 => Blocked h1
| OutOfFuel => OutOfFuel
end.

(** [self.body.seek(0)], then the request is handled. *)
Definition on_message_complete (h : t) : outcome t unit :=
handle_request (with_body (body h) 0%nat h).

Definition callback (ev : event) : t -> outcome t unit :=
match ev with
| MessageBegin => lift on_message_begin
| Url url => lift (on_url url)
| Header name value => lift (on_header name value)
| HeadersComplete method => lift (on_headers_complete method)
| Body data => lift (on_body data)
| MessageComplete => on_message_complete
end.

(** [httptools] stops at the first callback that raises and reports it as
  [HttpParserCallbackError]. *)
Fixpoint callbacks (evs : list event) (h : t) : outcome t unit :=
match evs with
| [] => Ok tt h
| ev :: evs' =>
    match callback ev h with
    | Ok _ h' => callbacks evs' h'
    | Raised _ h' => Raised HttpParserCallbackError h'
    | r => r
    end
end.

(** [self.parser.feed_data(data)] *)
Definition parser_feed_data (data : string) (h : t) : outcome t unit :=
let '(p, evs, err) := feed_data (parser h) data in
match callbacks evs (with_parser p h) with
| Ok _ h' => match err with Some e => Raised e h' | None => Ok tt h' end
| r => r
end.

Definition with_incoming (inc : list recv_event) (h : t) : t :=
with_client
  (mk_connection (sockname (client h)) (peername (client h)) inc
                 (sent (client h)) (closed (client h))) h.

(** The [while True] loop of [handle]; [inc] is what the peer delivers.
  With nothing left to deliver and the connection still open, [recv]
  waits. *)
Fixpoint handle_loop (inc : list recv_event) (h : t) : outcome t unit :=
match inc with
| [] => Blocked h
| ev :: inc' =>
    let h := with_incoming inc' h in
    match ev with
    | RecvError e => Raised (OSError e) h
    | RecvClosed => Ok tt h
    | RecvData data =>
        if bool_decide (data = "") then Ok tt h
        else
          match parser_feed_data data h with
          | Raised e h' =>
              if is_HttpParserError e then Ok tt h' else Raised e h'
          | Ok _ h' =>
              if Options.disable_keepalive (options h') then Ok tt h'
              else handle_loop inc' h'
          | r => r
          end
    end
end.

(** [handle()]: the loop, [except socket.error], [finally: close]. *)
Definition handle (h : t) : outcome t unit :=
match handle_loop (incoming (client h)) h with
| Ok _ h' => Ok tt (close h')
| Raised e h' =>
    if is_socket_error e then Ok tt (close h') else Raised e (close h')
| r => r
end.

End Handler.
End RequestHandler.

(** ** worker.py: class [Worker] *)

Module Worker.
Section Worker.
Context {P : Type}.
Variable feed_data : P -> string -> P * list event * option exn.
Variable date : string.
(** The state of a new [HttpRequestParser]. *)
Variable parser0 : P.

(** [handlers] is instrumentation: the handler of every accepted
  connection, as [handle] left it, oldest first. *)
Record t := mk {
app : gmap string env_value -> string -> app_call;
options : Options.t;
sockets : list listener;
requests_processed : Z;
handlers : list (@RequestHandler.t P)
}.

(** [__init__] *)
Definition init (the_app : gmap string env_value -> string -> app_call)
  (opts : Options.t) (socks : list listener) : t :=
mk the_app opts socks 0 [].

(** [signal.signal(signal.SIGINT, signal.SIG_DFL)] and the same for
  SIGTERM.  worker.py never imports [signal], and the name is no
  built-in: evaluating it raises. *)
Definition reset_signals (w : t) : outcome t unit :=
Raised (NameError "signal") w.

(** [errno in (EAGAIN, ECONNABORTED, EPROTO)] *)
Definition transient (e : errno) : bool :=
bool_decide (e ∈ [EAGAIN; ECONNABORTED; EPROTO]).

Definition set_pending (q : list accept_event) (l : listener) : listener :=
mk_listener (bound_to l) (backlog l) q (listener_closed l).

(** The state after [self.sockets[0].accept()] has taken an entry of the
  queue, which leaves [q]. *)
Definition accepted (q : list accept_event) (w : t) : t :=
mk (app w) (options w)
   (match sockets w with
    | l :: ls => set_pending q l :: ls
    | [] => []
    end)
   (requests_processed w) (handlers w).

Definition count_request (w : t) : t :=
mk (app w) (options w) (sockets w) (requests_processed w + 1) (handlers w).

Definition record_handler (h : @RequestHandler.t P) (w : t) : t :=
mk (app w) (options w) (sockets w) (requests_processed w) (handlers w ++ [h]).

(** The [while] loop of [run], over the accept queue [q] of
  [self.sockets[0]].  With nothing left in the queue, [accept] waits. *)
Fixpoint serve (q : list accept_event) (w : t) : outcome t unit :=
if bool_decide (requests_processed w < Options.max_requests (options w)) then
  match q with
  | [] => Blocked w
  | AcceptError e :: q' =>
      if transient e then serve q' (accepted q' w)
      else Raised (OSError e) (accepted q' w)
  | AcceptConn c :: q' =>
      let w := count_request (accepted q' w) in
      let handler :=
        RequestHandler.init parser0 (app w) c (peername c) (options w) in
      match RequestHandler.handle feed_data date handler with
      | Ok _ h => serve q' (record_handler h w)
      | Raised e h =>
          match e with
          | OSError n =>
              if transient n then serve q' (record_handler h w)
              else Raised e (record_handler h w)
          | _ => Raised e (record_handler h w)
          end
      | Blocked h => Blocked (record_handler h w)
      | OutOfFuel => OutOfFuel
      end
  end
else Ok tt w.

Definition accept_loop (w : t) : outcome t unit :=
match sockets w with
| l :: _ => serve (pending l) w
| [] =>
    if bool_decide (requests_processed w < Options.max_requests (options w))
    then Raised IndexError w else Ok tt w
end.

(** [run()] *)
Definition run : t -> outcome t unit :=
reset_signals ;;; accept_loop.

End Worker.
End Worker.

(** ** Concrete scenarios *)

(** A parser whose reading of the successive chunks is fixed in advance:
    its state is the list of the readings still to come. *)
Definition script := list (list event * option exn).

Definition scripted (p : script) (data : string) : script * list event * option exn :=
  match p with
  | [] => ([], [], None)
  | (evs, err) :: p' => (p', evs, err)
  end.

(** The events of a complete [GET] request without body. *)
Definition get_request (url : string) (hdrs : list (string * string)) : list event :=
  [MessageBegin; Url url] ++ map (fun x => Header x.1 x.2) hdrs
    ++ [HeadersComplete "GET"; MessageComplete].

Definition demo_options (keepalive_off : bool) (quota : Z) : Options.t :=
  Options.mk ["0.0.0.0:5000"; "0.0.0.0:5001"] 2 quota keepalive_off false 1024 "0.1.0".

Definition demo_date : string := "Tue, 03 Nov 2026 12:00:00 GMT".

Definition demo_connection (inc : list recv_event) : connection :=
  mk_connection ("127.0.0.1", 5000) ("10.0.0.7", 40000) inc "" false.

(** Applications: one that raises at once, one that answers [200 OK] with
    body [hello], one that starts the response and whose body raises after
    its first chunk. *)
Definition app_raises : gmap string env_value -> string -> app_call :=
  fun _ _ => AppRaise (AppException "RuntimeError").

Definition app_hello : gmap string env_value -> string -> app_call :=
  fun _ _ =>
    Start "200 OK" [("Content-Type", "text/plain")] None
      (Return (Yield "hello" Stop) false)
      (AppRaise (AssertionError "start_response called a second time without exc_info")).

Definition app_breaks_midway : gmap string env_value -> string -> app_call :=
  fun _ _ =>
    Start "200 OK" [("Content-Type", "text/plain")] None
      (Return (Yield "part" (IterRaise (AppException "RuntimeError"))) false)
      (AppRaise (AssertionError "start_response called a second time without exc_info")).

(** ** Notions used to state the properties of the Master *)

Module ServerSpec.
Import Server.

(** The operating system after [sig] has been sent to [pids], in order. *)
Definition signalled (sig : signal) (pids : list Z) (o : os) : os :=
  mk_os (children o) (next_pid o) (clock o)
        (delivered o ++ map (fun p => (p, sig)) pids).

(** Everything in the Master object but the worker map. *)
Definition control (s : t) : list listener * bool * Z * (bool * bool * bool * bool) :=
  (sockets s, running s, worker_count s,
   (_hup_received s, _quit_received s, _ttin_received s, _ttou_received s)).

(** The effect of [check_signals] on the desired worker count. *)
Definition scaled (s : t) : Z :=
  let up := if _ttin_received s then worker_count s + 1 else worker_count s in
  if _ttou_received s && bool_decide (up > 1) then up - 1 else up.

(** The options of [starman -w 0 app:app]. *)
Definition zero_workers : Options.t :=
  Options.mk ["0.0.0.0:5000"] 0 1000 false false 1024 "0.1.0".

Definition idle_os : os := mk_os [] 100 0 [].

(** Three workers, spawned in the order 101, 102, 103 and all running,
    with a desired count of two. *)
Definition three_workers : world :=
  mk_world (mk [] [(101, 0); (102, 0); (103, 0)] true 2 false false false false)
           (mk_os [(101, Running); (102, Running); (103, Running)] 104 0 []).
End ServerSpec.

(** ** Notions used to state the properties of the request handler *)

(** The status line, the header lines and the blank line, as
    [write_response] sends them in one [sendall]. *)
Definition header_block (status : string) (hdrs : list (string * string)) : string :=
  join CRLF (("HTTP/1.1 " +:+ status) :: map (fun x => x.1 +:+ ": " +:+ x.2) hdrs)
    +:+ CRLF +:+ CRLF.

(** Reading a response back from the wire: the text before the first
    occurrence of [sep], and the text after it. *)
Fixpoint split_at (sep s : string) : option (string * string) :=
  if String.prefix sep s
  then Some (EmptyString, substring (String.length sep)
                            (String.length s - String.length sep) s)
  else match s with
       | EmptyString => None
       | String c s' =>
           match split_at sep s' with
           | Some (a, b) => Some (String c a, b)
           | None => None
           end
       end.

Definition wire_status (wire : string) : option string :=
  fst <$> split_at CRLF wire.

Definition wire_body (wire : string) : option string :=
  snd <$> split_at (CRLF +:+ CRLF) wire.

(** A handler just created for a connection on which the peer will deliver
    [inc]; the parser will read the chunks as [sc] says. *)
Definition fresh_handler (the_app : gmap string env_value -> string -> app_call)
    (keepalive_off : bool) (sc : script) (inc : list recv_event)
  : @RequestHandler.t script :=
  RequestHandler.init sc the_app (demo_connection inc) ("10.0.0.7", 40000)
    (demo_options keepalive_off 3).

(** What no callback and no request changes in a handler: which connection
    it serves, what is still to be read from it, whether it is closed, and
    the options. *)
Definition conn_id {P} (h : @RequestHandler.t P) : (string * Z) * (string * Z) :=
  (sockname (RequestHandler.client h), peername (RequestHandler.client h)).

Definition frame {P} (h : @RequestHandler.t P)
  : (string * Z) * (string * Z) * list recv_event * bool * Options.t :=
  (conn_id h, incoming (RequestHandler.client h), closed (RequestHandler.client h),
   RequestHandler.options h).

(** The call returns or raises, and the frame of the handler is as before. *)
Definition settles {P A} (h : @RequestHandler.t P)
    (r : outcome (@RequestHandler.t P) A) : Prop :=
  match r with
  | Ok _ h' | Raised _ h' => frame h' = frame h
  | Blocked _ | OutOfFuel => False
  end.

(** The call ends in a state of the model, for the same connection. *)
Definition tracks {P A} (h : @RequestHandler.t P)
    (r : outcome (@RequestHandler.t P) A) : Prop :=
  match r with
  | Ok _ h' | Raised _ h' | Blocked h' => conn_id h' = conn_id h
  | OutOfFuel => False
  end.

(** The test of [write_response] for a [Date] header. *)
Definition is_date (x : string * string) : bool := bool_decide (lower x.1 = "date").

(** ** Notions used to state the properties of the Worker *)

(** The connections among the entries of an accept queue, each by its two
    addresses. *)
Definition connections_of (q : list accept_event) : list ((string * Z) * (string * Z)) :=
  omap (fun ev => match ev with
                  | AcceptConn c => Some (sockname c, peername c)
                  | AcceptError _ => None
                  end) q.

(** The number of requests handed to the application by a Worker: the
    calls of [handle_request] over all its connections. *)
Definition requests_served {P} (w : @Worker.t P) : nat :=
  sum_list (RequestHandler.handled <$> Worker.handlers w).

(** A parser that reads the first chunk of a connection as one complete
    [GET /] request. *)
Definition one_request : script := [(get_request "/" [], None)].

(** A peer that sends one request and closes, and one that closes without
    sending anything. *)
Definition one_request_connection : connection :=
  demo_connection [RecvData ("GET / HTTP/1.1" +:+ CRLF +:+ CRLF); RecvClosed].

Definition silent_connection : connection := demo_connection [RecvClosed].

Definition demo_listener (q : list accept_event) : listener :=
  mk_listener (Some (TcpEndpoint "0.0.0.0" 5000)) 1024 q false.

(** A Worker with a quota of three requests and two listeners; [q] is the
    accept queue of the first, and a connection waits on the second. *)
Definition demo_worker (q : list accept_event) : @Worker.t script :=
  Worker.init app_hello (demo_options true 3)
    [demo_listener q;
     mk_listener (Some (TcpEndpoint "0.0.0.0" 5001)) 1024
       [AcceptConn one_request_connection] false].

(** ** Notions used to state further properties of the Master *)

(** [c in s] for a character. *)
Fixpoint occurs (c : ascii) (s : string) : bool :=
  match s with
  | EmptyString => false
  | String c' s' => bool_decide (c' = c) || occurs c s'
  end.

Module MasterSpec.
Import Server.

(** [pid] names a child of the Master that has not been reaped. *)
Definition exists_in (o : os) (pid : Z) : Prop := pid ∈ (children o).*1.

Global Instance exists_in_dec o pid : Decision (exists_in o pid).
Proof. unfold exists_in. apply _. Defined.

(** Every pid of the worker map is below the next pid that [fork] gives. *)
Definition pids_below_next (w : world) : Prop :=
  Forall (fun p => p < next_pid (sys w)) (keys (workers (self w))).

(** The entries that [n] calls of [spawn_worker] add to the worker map, and
    the children they add to the operating system. *)
Definition spawned (o : os) (n : nat) : list (Z * Z) :=
  map (fun i => (next_pid o + Z.of_nat i, clock o)) (seq 0 n).

Definition forked (o : os) (n : nat) : list (Z * pstatus) :=
  map (fun i => (next_pid o + Z.of_nat i, Running)) (seq 0 n).

Definition after_spawning (n : nat) (w : world) : world :=
  mk_world (with_workers (fun ws => ws ++ spawned (sys w) n) (self w))
           (mk_os (children (sys w) ++ forked (sys w) n)
                  (next_pid (sys w) + Z.of_nat n) (clock (sys w)) (delivered (sys w))).

(** The Master with one more listener at the end of its list. *)
Definition with_listener (l : listener) (s : t) : t :=
  mk (sockets s ++ [l]) (workers s) (running s) (worker_count s) (_hup_received s)
     (_quit_received s) (_ttin_received s) (_ttou_received s).

(** Python's [int] on the texts that are plain runs of decimal digits. *)
Fixpoint digits (acc : Z) (s : string) : option Z :=
  match s with
  | EmptyString => Some acc
  | String c s' =>
      let n := N_of_ascii c in
      if (48 <=? n)%N && (n <=? 57)%N
      then digits (10 * acc + Z.of_N (n - 48)) s'
      else None
  end.

Definition decimal (s : string) : option Z :=
  match s with
  | EmptyString => None
  | _ => digits 0 s
  end.

(** An operating system that lets every address be bound. *)
Definition any_address (_ : endpoint) : option errno := None.

(** One worker, 101, of three desired; and two workers that have exited and
    wait to be reaped. *)
Definition one_of_three : world :=
  mk_world (mk [] [(101, 0)] true 3 false false false false)
           (mk_os [(101, Running)] 104 7 []).

Definition two_exited : world :=
  mk_world (mk [] [(101, 0); (102, 0)] true 2 false false false false)
           (mk_os [(101, Exited 0); (102, Exited 15)] 103 7 []).
End MasterSpec.

(** ** Notions used to state further properties of the handler *)

(** The key of the environment under which [on_header] stores a header. *)
Definition environ_key (name : string) : string :=
  let n := replace "-" "_" (upper name) in
  if bool_decide (n ∈ ["CONTENT_TYPE"; "CONTENT_LENGTH"]) then n else "HTTP_" +:+ n.

(** The headers that [write_response] sends for the stored list [hdrs]: a
    [Date] header is added when there is none, and a [Server] header in
    any case. *)
Definition final_headers (date version : string) (hdrs : list (string * string))
  : list (string * string) :=
  (if negb (existsb is_date hdrs) then hdrs ++ [("Date", date)] else hdrs)
    ++ [("Server", "Starman/" +:+ version)].

(** An iterable that yields the chunks of a list and ends. *)
Definition yields (chunks : list string) : body_iter := foldr Yield Stop chunks.

(** The chunks of a list, one after the other. *)
Definition joined (chunks : list string) : string := foldr String.append "" chunks.

(** A [recv] after which [handle] reads no more: the peer has closed, or
    the call fails. *)
Definition ends_reading (ev : recv_event) : bool :=
  match ev with
  | RecvData data => bool_decide (data = "")
  | RecvClosed | RecvError _ => true
  end.

(** A parser reports its own failures as [HttpParserError]s. *)
Definition parse_errors_only {P} (feed_data : P -> string -> P * list event * option exn)
  : Prop :=
  forall p data, match (feed_data p data).2 with
                 | Some e => is_HttpParserError e = true
                 | None => True
                 end.

(** A parser for which every chunk is one complete [GET /] request. *)
Definition request_per_chunk (p : unit) (data : string) : unit * list event * option exn :=
  (p, get_request "/" [], None).

(** Applications: one that starts its response and then raises, one that
    calls [start_response] twice, one that leaves by [SystemExit]. *)
Definition app_raises_after_start : gmap string env_value -> string -> app_call :=
  fun _ _ =>
    Start "200 OK" [("Content-Type", "text/plain")] None
      (AppRaise (AppException "RuntimeError"))
      (AppRaise (AssertionError "start_response called a second time without exc_info")).

Definition app_starts_twice : gmap string env_value -> string -> app_call :=
  fun _ _ =>
    Start "200 OK" [] None
      (Start "404 Not Found" [] None (Return Stop false)
         (AppRaise (AssertionError "start_response called a second time without exc_info")))
      (AppRaise (AssertionError "start_response called a second time without exc_info")).

Definition app_exits : gmap string env_value -> string -> app_call :=
  fun _ _ => AppRaise (AppBaseException "SystemExit").

(** A handler that has answered one request of its connection with
    [app_hello]. *)
Definition answered_handler : @RequestHandler.t script :=
  RequestHandler.with_response
    (Some ("200 OK", final_headers demo_date "0.1.0" [("Content-Type", "text/plain")]))
    (fresh_handler app_hello false [] []).

(** * Properties of the Master *)

Section ServerFacts.
Import Server ServerSpec.

Lemma signalled_nil sig o : signalled sig [] o = o.
Proof. destruct o. unfold signalled. simpl. by rewrite app_nil_r. Qed.

Lemma kill_worker_exists sig w pid :
  pid ∈ (children (sys w)).*1 ->
  kill_worker sig w pid = mk_world (self w) (signalled sig [pid] (sys w)).
Proof.
  intros Hin. unfold kill_worker, os_kill.
  by rewrite bool_decide_eq_true_2.
Qed.

Lemma kill_each_exists sig pids : forall w,
  (forall p, p ∈ pids -> p ∈ (children (sys w)).*1) ->
  fold_left (kill_worker sig) pids w = mk_world (self w) (signalled sig pids (sys w)).
Proof.
  induction pids as [|p pids IH]; intros w Hall; simpl.
  - rewrite signalled_nil. by destruct w.
  - rewrite kill_worker_exists by (apply Hall; left).
    rewrite IH; simpl.
    + f_equal. unfold signalled. simpl. by rewrite <- app_assoc.
    + intros q Hq. apply Hall. by right.
Qed.

Lemma kill_workers_exist sig w :
  (forall p, p ∈ keys (workers (self w)) -> p ∈ (children (sys w)).*1) ->
  kill_workers sig w
  = mk_world (self w) (signalled sig (keys (workers (self w))) (sys w)).
Proof. apply kill_each_exists. Qed.

Lemma kill_rounds_exist (rounds : list Z) : forall w,
  (forall p, p ∈ keys (workers (self w)) -> p ∈ (children (sys w)).*1) ->
  fold_left (fun w' _ => kill_workers SIGTERM w') rounds w
  = mk_world (self w)
      (signalled SIGTERM
         (mjoin (replicate (length rounds) (keys (workers (self w))))) (sys w)).
Proof.
  induction rounds as [|r rounds IH]; intros w Hall; simpl.
  - rewrite signalled_nil. by destruct w.
  - rewrite kill_workers_exist by done. rewrite IH by done. simpl.
    f_equal. unfold signalled. simpl. by rewrite map_app, <- app_assoc.
Qed.

Lemma maintain_worker_count_excess w :
  (forall p, p ∈ keys (workers (self w)) -> p ∈ (children (sys w)).*1) ->
  live w > worker_count (self w) ->
  maintain_worker_count w
  = mk_world (self w)
      (signalled SIGTERM
         (mjoin (replicate
                   (Z.to_nat (live w - worker_count (self w))
                      `min` length (workers (self w)))
                   (keys (workers (self w))))) (sys w)).
Proof.
  intros Hall Hd. unfold maintain_worker_count.
  rewrite bool_decide_eq_false_2 by lia.
  rewrite bool_decide_eq_true_2 by lia.
  rewrite kill_rounds_exist by done.
  rewrite length_take. unfold keys at 1. rewrite length_fmap.
  do 4 f_equal. lia.
Qed.

Lemma control_with_workers f s : control (with_workers f s) = control s.
Proof. reflexivity. Qed.

Lemma control_kill_worker sig w pid :
  control (self (kill_worker sig w pid)) = control (self w).
Proof.
  unfold kill_worker. destruct (os_kill pid sig (sys w)) as [o [e|]]; [|done].
  by case_bool_decide.
Qed.

Lemma control_kill_each sig pids : forall w,
  control (self (fold_left (kill_worker sig) pids w)) = control (self w).
Proof.
  induction pids as [|p pids IH]; intros w; simpl; [done|].
  by rewrite IH, control_kill_worker.
Qed.

Lemma control_kill_workers sig w :
  control (self (kill_workers sig w)) = control (self w).
Proof. apply control_kill_each. Qed.

Lemma control_spawn_worker w : control (self (spawn_worker w)) = control (self w).
Proof. reflexivity. Qed.

Lemma control_spawn_workers_loop fuel : forall w w',
  final_state (spawn_workers_loop fuel w) = Some w' ->
  control (self w') = control (self w).
Proof.
  induction fuel as [|n IH]; intros w w'; simpl; case_bool_decide; simpl;
    try congruence.
  intros Hf. by rewrite (IH _ _ Hf), control_spawn_worker.
Qed.

Lemma control_reaped block pid w :
  control (self (reaped block pid w).1) = control (self w).
Proof.
  unfold reaped.
  destruct (bool_decide (pid = 0) && negb block); [done|].
  destruct (contains pid (workers (self w))); simpl;
    by destruct (block && _).
Qed.

Lemma control_reap_loop fuel block : forall w w',
  final_state (reap_loop fuel block w) = Some w' ->
  control (self w') = control (self w).
Proof.
  induction fuel as [|n IH]; intros w w'; simpl; [done|].
  destruct (os_waitpid _ _) as [pid st o| |e|].
  - pose proof (control_reaped block pid (mk_world (self w) o)) as Hc.
    destruct (reaped block pid _) as [w1 brk]. simpl in Hc.
    destruct brk; simpl.
    + intros [= <-]. done.
    + intros H. by rewrite (IH _ _ H).
  - pose proof (control_reaped block 0 w) as Hc.
    destruct (reaped block 0 w) as [w1 brk]. simpl in Hc.
    destruct brk; simpl; by intros [= <-].
  - case_bool_decide; simpl; by intros [= <-].
  - simpl. by intros [= <-].
Qed.

Lemma control_maintain_worker_count w :
  control (self (maintain_worker_count w)) = control (self w).
Proof.
  unfold maintain_worker_count. repeat case_bool_decide; [| |done].
  - generalize (Z.to_nat (worker_count (self w) - live w)).
    intros n. induction n as [|n IH]; [done|].
    rewrite Nat.iter_succ. by rewrite control_spawn_worker.
  - generalize (take (Z.to_nat (Z.abs (worker_count (self w) - live w)))
                     (keys (workers (self w)))).
    intros rounds. clear. revert w.
    induction rounds as [|r rounds IH]; intros w; simpl; [done|].
    by rewrite IH, control_kill_workers.
Qed.

Lemma control_reap_workers block w w' :
  final_state (reap_workers block w) = Some w' -> control (self w') = control (self w).
Proof. apply control_reap_loop. Qed.

Lemma control_graceful_restart w w' :
  final_state (graceful_restart w) = Some w' -> control (self w') = control (self w).
Proof.
  unfold graceful_restart, bind, lift.
  destruct (reap_workers true _) as [[] w1|e w1|w1|] eqn:Hr; simpl; try done;
    (assert (Hc : control (self w1) = control (self w));
     [ rewrite (control_reap_workers true (kill_workers SIGTERM w) w1) by (by rewrite Hr);
       apply control_kill_workers |]).
  - intros Hf. apply control_spawn_workers_loop in Hf. congruence.
  - by intros [= <-].
  - by intros [= <-].
Qed.


(** C1 (as the code has it): when the live workers outnumber the desired
    count, [maintain_worker_count] sends SIGTERM to every worker in the
    map, not only to the oldest excess ones: the loop over
    [pids_to_kill] calls [kill_workers], which signals them all. *)
Theorem maintain_worker_count_signals_every_worker w :
  (forall p, p ∈ keys (workers (self w)) -> p ∈ (children (sys w)).*1) ->
  live w > worker_count (self w) ->
  forall p, p ∈ keys (workers (self w)) ->
    (p, SIGTERM) ∈ delivered (sys (maintain_worker_count w)).
Proof.
  intros Hall Hd p Hp. rewrite maintain_worker_count_excess by done. simpl.
  apply elem_of_app. right. apply (list_elem_of_fmap_2 (fun p => (p, SIGTERM))).
  assert (Hlen : (0 < length (workers (self w)))%nat).
  { unfold keys in Hp.
    destruct (workers (self w)); [by apply elem_of_nil in Hp|simpl; lia]. }
  unfold live in *.
  destruct (Z.to_nat (Z.of_nat (length (workers (self w))) - worker_count (self w))
              `min` length (workers (self w)))%nat eqn:E; [lia|].
  simpl. apply elem_of_app. by left.
Qed.

(** With three workers and a desired count of two the excess is one and
    the oldest worker is 101; yet 102 is signalled, as is 103. *)
Lemma maintain_worker_count_signals_every_worker_witness :
    take 1 (keys (workers (self three_workers))) = [101]
 /\ (102, SIGTERM) ∈ delivered (sys (maintain_worker_count three_workers))
 /\ delivered (sys (maintain_worker_count three_workers))
    = [(101, SIGTERM); (102, SIGTERM); (103, SIGTERM)].
Proof.
  split; [reflexivity|]. split; [|reflexivity].
  apply (maintain_worker_count_signals_every_worker three_workers).
  - intros p Hp. vm_compute in Hp |- *. exact Hp.
  - vm_compute. reflexivity.
  - vm_compute. right. left.
Defined.

Lemma take_exited_running cs :
  Forall (fun c => has_exited c = false) cs -> take_exited cs = None.
Proof.
  induction 1 as [|[p st] cs Hc _ IH]; simpl; [done|].
  destruct st; [by rewrite IH|done].
Qed.

(** C4 (as the code has it): while the Master has children and none of
    them has exited, the reap step of the tick does not return: with
    [block=False] the code passes [options = 0] to [waitpid], which
    waits for a child to exit. *)
Theorem reap_workers_waits_for_an_exit w :
  children (sys w) <> [] ->
  Forall (fun c => has_exited c = false) (children (sys w)) ->
  reap_workers false w = Blocked w
  /\ bind (reap_workers false) (fun _ => lift maintain_worker_count) w = Blocked w.
Proof.
  intros Hne Hrun.
  assert (Hr : reap_workers false w = Blocked w).
  { unfold reap_workers. simpl. unfold os_waitpid.
    rewrite (take_exited_running _ Hrun).
    by destruct (children (sys w)). }
  split; [done|]. unfold bind. by rewrite Hr.
Qed.

(** Three running workers and no pending signal: the reap step waits, and
    so does the whole tick. *)
Lemma reap_workers_waits_for_an_exit_witness :
  (reap_workers false three_workers = Blocked three_workers
   /\ bind (reap_workers false) (fun _ => lift maintain_worker_count) three_workers
      = Blocked three_workers)
  /\ tick three_workers = Blocked three_workers.
Proof.
  split; [|reflexivity].
  apply (reap_workers_waits_for_an_exit three_workers).
  - simpl. discriminate.
  - simpl. repeat constructor.
Defined.

Lemma check_signals_worker_count w :
  match check_signals w with
  | Ok _ w' => worker_count (self w') = scaled (self w)
  | Raised _ w' | Blocked w' => worker_count (self w') = worker_count (self w)
  | OutOfFuel => True
  end.
Proof.
  unfold check_signals, bind, lift.
  destruct (_hup_received (self w)) eqn:Hhup.
  - destruct (graceful_restart _) as [[] w1|e w1|w1|] eqn:Hg; simpl; try done;
      (eassert (Hc : control (self w1) = _);
       [ apply control_graceful_restart; by rewrite Hg |]);
      unfold control in Hc; simpl in Hc;
      injection Hc as _ _ Hwc _ Hqu Hin Hou; [|done..].
    unfold scaled. rewrite <- Hwc, <- Hin, <- Hou. simpl.
    destruct (self w1) as [? ? ? ? ? qu ti to]. simpl.
    destruct qu, ti, to; simpl; try case_bool_decide; simpl; done.
  - simpl. unfold scaled.
    destruct w as [[? ? ? ? ? qu ti to] o]. simpl.
    destruct qu, ti, to; simpl; try case_bool_decide; simpl; done.
Qed.

Lemma scaled_floor s : worker_count s >= 1 -> scaled s >= 1.
Proof.
  unfold scaled. intros Hs.
  destruct (_ttin_received s), (_ttou_received s); simpl;
    try case_bool_decide; lia.
Qed.

Lemma step_worker_count_floor w w' :
  step w w' -> worker_count (self w) >= 1 -> worker_count (self w') >= 1.
Proof.
  intros Hstep Hw. destruct Hstep as
    [sig w|pid st w|w w' Hf|w w' Hf|block w w' Hf|w|sig w|w].
  - by destruct sig.
  - done.
  - apply control_spawn_workers_loop in Hf. unfold control in Hf.
    injection Hf as _ _ Hwc _. by rewrite Hwc.
  - pose proof (check_signals_worker_count w) as Hc.
    destruct (check_signals w) as [[] w1|e w1|w1|]; simpl in Hf; try done;
      injection Hf as ->; rewrite Hc; [by apply scaled_floor|done..].
  - apply control_reap_workers in Hf. unfold control in Hf.
    injection Hf as _ _ Hwc _. by rewrite Hwc.
  - pose proof (control_maintain_worker_count w) as Hc. unfold control in Hc.
    injection Hc as _ _ Hwc _. by rewrite Hwc.
  - pose proof (control_kill_workers sig w) as Hc. unfold control in Hc.
    injection Hc as _ _ Hwc _. by rewrite Hwc.
  - done.
Qed.

Lemma reachable_worker_count_floor w0 w :
  rtc step w0 w -> worker_count (self w0) >= 1 -> worker_count (self w) >= 1.
Proof.
  induction 1 as [w|w1 w2 w3 Hstep _ IH]; [done|].
  intros H1. apply IH. by apply (step_worker_count_floor w1).
Qed.

(** C6 (amended): when the configured number of workers is at least 1,
    the desired worker count is at least 1 in every state the Master can
    reach; and a call of [check_signals] that returns adds exactly 1 for
    a pending scale-up and then subtracts exactly 1 for a pending
    scale-down, except that a scale-down at 1 leaves the count at 1. *)
Theorem desired_worker_count_floor opts o w :
  Options.workers opts >= 1 ->
  rtc step (mk_world (init opts) o) w ->
  worker_count (self w) >= 1
  /\ (forall w', check_signals w = Ok tt w' ->
       let up := if _ttin_received (self w) then 1 else 0 in
       let down := if _ttou_received (self w)
                   then (if bool_decide (worker_count (self w) + up = 1) then 0 else 1)
                   else 0 in
       worker_count (self w') = worker_count (self w) + up - down).
Proof.
  intros Hopts Hreach.
  assert (Hinv : worker_count (self w) >= 1)
    by (by apply (reachable_worker_count_floor _ _ Hreach)).
  split; [done|]. intros w' Hok.
  pose proof (check_signals_worker_count w) as Hc. rewrite Hok in Hc.
  rewrite Hc. unfold scaled.
  destruct (_ttin_received (self w)), (_ttou_received (self w)); simpl;
    repeat case_bool_decide; lia.
Qed.

Lemma desired_worker_count_floor_witness :
  let w0 := mk_world (init (demo_options false 3)) idle_os in
  let w := on_self (SIGNALS SIGTTOU) (on_self (SIGNALS SIGTTOU) w0) in
  Options.workers (demo_options false 3) >= 1
  /\ rtc step w0 w
  /\ worker_count (self w) >= 1
  /\ (forall w', check_signals w = Ok tt w' ->
       worker_count (self w') = worker_count (self w) + 0 - 1).
Proof.
  intros w0 w.
  assert (H1 : Options.workers (demo_options false 3) >= 1) by (simpl; lia).
  assert (H2 : rtc step w0 w)
    by (eapply rtc_l; [apply step_signal|]; eapply rtc_l; [apply step_signal|];
        apply rtc_refl).
  split; [exact H1|]. split; [exact H2|].
  exact (desired_worker_count_floor (demo_options false 3) idle_os w H1 H2).
Defined.

(** C6 (as stated) fails right after construction: nothing checks the
    configured number of workers, and with [-w 0] the desired count is 0. *)
Lemma desired_worker_count_zero_after_init :
  ~ (forall opts, worker_count (init opts) >= 1)
  /\ worker_count (init zero_workers) = 0.
Proof. split; [|reflexivity]. intros H. specialize (H zero_workers). simpl in H. lia. Qed.

(** When [setup_sockets] returns, the Master holds one more listening
    socket for each configured address, in the order of the
    configuration. *)
Lemma bind_listeners_every_address py_int os_bind opts addrs : forall s s',
  bind_listeners py_int os_bind opts addrs s = Ok tt s' ->
  exists ls,
    sockets s' = sockets s ++ ls
    /\ length ls = length addrs
    /\ Forall (fun l => listener_closed l = false
                        /\ backlog l = Options.backlog opts
                        /\ is_Some (bound_to l)) ls.
Proof.
  induction addrs as [|a addrs IH]; intros s s'; cbn [bind_listeners].
  - intros [= <-]. exists []. by rewrite app_nil_r.
  - unfold bind.
    destruct (bind_listener py_int os_bind opts a s) as [[] s1|e s1|s1|] eqn:Hb;
      try done.
    intros Hrest. apply IH in Hrest as (ls & Hs' & Hlen & Hall).
    assert (Hs1 : exists l, sockets s1 = sockets s ++ [l]
                            /\ listener_closed l = false
                            /\ backlog l = Options.backlog opts
                            /\ is_Some (bound_to l)).
    { unfold bind_listener in Hb.
      destruct (rsplit_colon a) as [[host port]|];
        [destruct (py_int port); [|done]|];
        destruct (os_bind _); try done; injection Hb as <-; simpl;
        eexists; (split; [reflexivity|]); simpl; eauto. }
    destruct Hs1 as (l & Hs1 & Hl). exists (l :: ls).
    rewrite Hs', Hs1, <- app_assoc. split; [done|]. split; [simpl; lia|].
    by constructor.
Qed.

Lemma setup_sockets_binds_every_endpoint py_int os_bind opts s' :
  setup_sockets py_int os_bind opts (init opts) = Ok tt s' ->
  length (sockets s') = length (Options.listen opts).
Proof.
  intros Hs. apply bind_listeners_every_address in Hs as (ls & -> & Hlen & _).
  exact Hlen.
Qed.

End ServerFacts.

(** * Properties of the request handler *)

Section HandlerFacts.
Import RequestHandler.
Context {P : Type}.
Variable feed_data : P -> string -> P * list event * option exn.
Variable date : string.
Implicit Types h : @RequestHandler.t P.

(** C7 (as the code has it): once a response is stored, a call of
    [start_response] with [exc_info] raises the exception of [exc_info]
    and replaces nothing, whether or not anything was written: the test
    is on [self.response], not on bytes sent. *)
Theorem start_response_again_with_exc_info_raises h status hdrs e :
  is_Some (response h) ->
  start_response status hdrs (Some e) h = Raised e h.
Proof.
  intros Hr. unfold start_response. by rewrite bool_decide_eq_true_2.
Qed.

(** C9: for the request line [GET /path?x=1] with the header
    [X-Test: v], the environment handed to the application has path
    [/path], query string [x=1], and the value [v] under the normalised
    name of [X-Test], which is [HTTP_X_TEST]. *)
Theorem simple_get_request_context h v :
  exists h',
    callbacks date
      [MessageBegin; Url "/path?x=1"; Header "X-Test" v; HeadersComplete "GET"] h
      = Ok tt h'
    /\ environ h' !! "REQUEST_METHOD" = Some (EStr "GET")
    /\ environ h' !! "RAW_URI" = Some (EStr "/path?x=1")
    /\ environ h' !! "PATH_INFO" = Some (EStr "/path")
    /\ environ h' !! "QUERY_STRING" = Some (EStr "x=1")
    /\ environ h' !! "HTTP_X_TEST" = Some (EStr v)
    /\ headers h' = [("HTTP-X-TEST", v)].
Proof.
  eexists. split; [reflexivity|].
  unfold on_headers_complete.
  set (h1 := with_environ _ _).
  assert (He : environ h1 =
    <["REQUEST_METHOD" := EStr "GET"]>
      (<["HTTP_X_TEST" := EStr v]>
         (environ (on_url "/path?x=1" (on_message_begin h))))) by reflexivity.
  assert (Hh : headers h1 = [("HTTP-X-TEST", v)]) by reflexivity.
  assert (Hgoal :
    environ h1 !! "REQUEST_METHOD" = Some (EStr "GET")
    /\ environ h1 !! "RAW_URI" = Some (EStr "/path?x=1")
    /\ environ h1 !! "PATH_INFO" = Some (EStr "/path")
    /\ environ h1 !! "QUERY_STRING" = Some (EStr "x=1")
    /\ environ h1 !! "HTTP_X_TEST" = Some (EStr v)
    /\ headers h1 = [("HTTP-X-TEST", v)]).
  { rewrite He, Hh. repeat apply conj; [..|reflexivity].
    - by rewrite lookup_insert_eq.
    - rewrite !lookup_insert_ne by done. reflexivity.
    - rewrite !lookup_insert_ne by done. reflexivity.
    - rewrite !lookup_insert_ne by done. reflexivity.
    - rewrite lookup_insert_ne by done. by rewrite lookup_insert_eq. }
  destruct (expects_continue h1); exact Hgoal.
Qed.

(** C2 (amended): when the application raises an [Exception] before any
    call of [start_response], on a handler that holds no response yet,
    the bytes written for the request are the status line
    [500 Internal Server Error], a [Date] and a [Server] header, the
    blank line, and the body [Internal Server Error]. *)
Theorem app_raises_before_start_writes_500 h e :
  response h = None ->
  app h (environ h) (body h) = AppRaise e ->
  is_Exception e = true ->
  exists h',
    final_state (handle_request date h) = Some h'
    /\ sent (client h')
       = (sent (client h)
          +:+ header_block "500 Internal Server Error"
                [("Date", date);
                 ("Server", "Starman/" +:+ Options.version (options h))])
         +:+ "Internal Server Error".
Proof.
  intros Hresp Happ He. unfold handle_request.
  change (app (entered h)) with (app h).
  change (environ (entered h)) with (environ h).
  change (body (entered h)) with (body h).
  rewrite Happ. cbn [run_app]. rewrite He.
  unfold on_exception, bind, start_response.
  change (response (entered h)) with (response h). rewrite Hresp.
  rewrite bool_decide_eq_false_2 by (intros [? ?]; done).
  eexists. split; [reflexivity|]. reflexivity.
Qed.

(** *** What requests and callbacks leave alone *)

Lemma settles_frame {A} h0 h (r : outcome (@RequestHandler.t P) A) :
  frame h = frame h0 -> settles h r -> settles h0 r.
Proof. intros Hf. destruct r; simpl; congruence. Qed.

Lemma settles_start_response status hdrs exc_info h :
  settles h (start_response status hdrs exc_info h).
Proof.
  unfold start_response. destruct exc_info; case_bool_decide; reflexivity.
Qed.

Lemma settles_send_body it : forall h, settles h (send_body it h).
Proof.
  induction it as [|chunk rest IH|e|status hdrs ei k1 IH1 k2 IH2]; intros h;
    cbn [send_body].
  - reflexivity.
  - eapply settles_frame; [|apply IH]. by case_bool_decide.
  - reflexivity.
  - pose proof (settles_start_response status hdrs ei h) as Hs.
    destruct (start_response status hdrs ei h) as [[] h'|e h'|h'|]; try done;
      simpl in Hs; (eapply settles_frame; [exact Hs|]); [apply IH1|apply IH2].
Qed.

Lemma settles_write_response it h : settles h (write_response date it h).
Proof.
  unfold write_response. destruct (response h) as [[status hdrs]|]; [|reflexivity].
  eapply settles_frame; [|apply settles_send_body]. reflexivity.
Qed.

Lemma settles_run_app a : forall h, settles h (run_app a h).
Proof.
  induction a as [it c|e|status hdrs ei k1 IH1 k2 IH2]; intros h; cbn [run_app];
    [reflexivity..|].
  pose proof (settles_start_response status hdrs ei h) as Hs.
  destruct (start_response status hdrs ei h) as [[] h'|e h'|h'|]; try done;
    simpl in Hs; (eapply settles_frame; [exact Hs|]); [apply IH1|apply IH2].
Qed.

Lemma settles_on_exception h : settles h (on_exception date h).
Proof.
  unfold on_exception, bind. case_bool_decide.
  - apply settles_write_response.
  - pose proof (settles_start_response "500 Internal Server Error" [] None h) as Hs.
    destruct (start_response _ _ _ h) as [[] h'|e h'|h'|]; try done.
    eapply settles_frame; [exact Hs|apply settles_write_response].
Qed.

Lemma settles_finally_close c h r :
  settles h r -> settles h (finally_close c r).
Proof.
  destruct c as [[]|], r as [[] h'|e h'|h'|]; simpl; done.
Qed.

Lemma settles_handle_request h : settles h (handle_request date h).
Proof.
  unfold handle_request.
  pose proof (settles_run_app (app (entered h) (environ (entered h)) (body (entered h)))
                (entered h)) as Hr.
  destruct (run_app _ _) as [[it c] h1|e h1|h1|]; try done; simpl in Hr;
    change (frame (entered h)) with (frame h) in Hr.
  - pose proof (settles_write_response it h1) as Hw.
    destruct (write_response date it h1) as [[] h2|e h2|h2|]; try done;
      apply settles_finally_close.
    + simpl in *. congruence.
    + destruct (is_Exception e).
      * eapply settles_frame; [|apply settles_on_exception]. simpl in Hw. congruence.
      * simpl in *. congruence.
  - apply settles_finally_close. destruct (is_Exception e).
    + eapply settles_frame; [|apply settles_on_exception]. congruence.
    + simpl. congruence.
Qed.

Lemma settles_callback ev h : settles h (callback date ev h).
Proof.
  destruct ev as [|url|name value|method|data|]; cbn [callback]; unfold lift.
  - reflexivity.
  - unfold on_url. by destruct (partition "?" url).
  - unfold on_header. simpl. by case_bool_decide.
  - unfold on_headers_complete. simpl. by destruct (expects_continue _).
  - unfold on_body. by destruct (bytes_write data (body h) (body_pos h)).
  - unfold on_message_complete.
    eapply settles_frame; [|apply settles_handle_request]. reflexivity.
Qed.

Lemma settles_callbacks evs : forall h, settles h (callbacks date evs h).
Proof.
  induction evs as [|ev evs IH]; intros h; cbn [callbacks]; [reflexivity|].
  pose proof (settles_callback ev h) as Hc.
  destruct (callback date ev h) as [[] h'|e h'|h'|]; try done.
  eapply settles_frame; [exact Hc|apply IH].
Qed.

Lemma settles_parser_feed_data data h :
  settles h (parser_feed_data feed_data date data h).
Proof.
  unfold parser_feed_data. destruct (feed_data (parser h) data) as [[p evs] err].
  pose proof (settles_callbacks evs (with_parser p h)) as Hc.
  destruct (callbacks date evs _) as [[] h'|e h'|h'|]; try done.
  by destruct err.
Qed.

Lemma tracks_handle_loop inc : forall h, tracks h (handle_loop feed_data date inc h).
Proof.
  induction inc as [|ev inc IH]; intros h; cbn [handle_loop]; [reflexivity|].
  destruct ev as [data| |e]; [|reflexivity..].
  case_bool_decide; [reflexivity|].
  pose proof (settles_parser_feed_data data (with_incoming inc h)) as Hs.
  destruct (parser_feed_data _ _ _ _) as [[] h'|e h'|h'|]; try done;
    assert (Hid : conn_id h' = conn_id h)
      by (exact (f_equal (fun x => x.1.1.1) Hs)).
  - destruct (Options.disable_keepalive (options h')); [exact Hid|].
    specialize (IH h'). destruct (handle_loop _ _ _ _); simpl in *; congruence.
  - by destruct (is_HttpParserError e).
Qed.

Lemma tracks_handle h : tracks h (handle feed_data date h).
Proof.
  unfold handle. pose proof (tracks_handle_loop (incoming (client h)) h) as Ht.
  destruct (handle_loop _ _ _ _) as [[] h'|e h'|h'|]; try done.
  by destruct (is_socket_error e).
Qed.

(** *** A response that has started *)

Lemma send_body_keeps_response it : forall h,
  is_Some (response h) ->
  match send_body it h with
  | Ok _ h' | Raised _ h' =>
      response h' = response h /\ options h' = options h
  | _ => False
  end.
Proof.
  induction it as [|chunk rest IH|e|status hdrs ei k1 IH1 k2 IH2]; intros h Hr;
    cbn [send_body]; [done| |done|].
  - case_bool_decide; [by apply IH|].
    specialize (IH (sendall chunk h) Hr). by destruct (send_body rest _).
  - unfold start_response.
    destruct ei; rewrite bool_decide_eq_true_2 by done; by apply IH2.
Qed.

Lemma write_response_started it h status hdrs :
  response h = Some (status, hdrs) ->
  match write_response date it h with
  | Ok _ h' | Raised _ h' =>
      exists hdrs', response h' = Some (status, hdrs')
                    /\ existsb is_date hdrs' = true
                    /\ options h' = options h
  | _ => False
  end.
Proof.
  intros Hr. unfold write_response. rewrite Hr.
  set (hdrs' := (if negb _ then _ else _) ++ _).
  set (h1 := sendall _ _).
  assert (Hr1 : response h1 = Some (status, hdrs')) by reflexivity.
  pose proof (send_body_keeps_response it h1) as Hs.
  rewrite Hr1 in Hs. specialize (Hs (mk_is_Some _ _ eq_refl)).
  assert (Hd : existsb is_date hdrs' = true).
  { subst hdrs'. rewrite existsb_app.
    destruct (existsb _ hdrs) eqn:E; simpl.
    - unfold is_date. by rewrite E.
    - rewrite existsb_app. cbn [existsb].
      assert (Hdate : is_date ("Date", date) = true) by (vm_compute; reflexivity).
      rewrite Hdate. by rewrite orb_true_r. }
  destruct (send_body it h1) as [[] h'|e h'|h'|]; try done;
    destruct Hs as [-> ->]; eauto.
Qed.

(** C5 (amended): when the response has started and the body raises an
    [Exception] while it is written, [handle_request] writes the response
    again after the bytes already sent (the stored status line, the
    stored headers with one more [Server] header, the blank line) and
    then the body [Internal Server Error]; it returns without closing
    the connection. *)
Theorem body_raises_midway_writes_again h it c h1 e h2 :
  run_app (app h (environ h) (body h)) (entered h) = Ok (it, c) h1 ->
  is_Some (response h1) ->
  write_response date it h1 = Raised e h2 ->
  is_Exception e = true ->
  exists status hdrs h3,
    response h2 = Some (status, hdrs)
    /\ handle_request date h = Ok tt h3
    /\ sent (client h3)
       = (sent (client h2)
          +:+ header_block status
                (hdrs ++ [("Server", "Starman/" +:+ Options.version (options h2))]))
         +:+ "Internal Server Error"
    /\ closed (client h3) = closed (client h2).
Proof.
  intros Hrun [[status hdrs0] Hr1] Hw He.
  pose proof (write_response_started it h1 status hdrs0 Hr1) as Hs.
  rewrite Hw in Hs. destruct Hs as (hdrs & Hr2 & Hd & _).
  exists status, hdrs.
  unfold handle_request.
  change (app (entered h)) with (app h).
  change (environ (entered h)) with (environ h).
  change (body (entered h)) with (body h).
  rewrite Hrun, Hw, He.
  unfold on_exception, bind. rewrite bool_decide_eq_true_2 by (by rewrite Hr2).
  unfold write_response. rewrite Hr2.
  fold is_date. rewrite Hd. cbn [negb send_body].
  rewrite bool_decide_eq_false_2 by done.
  destruct c; eexists; (split; [reflexivity|]); (split; [reflexivity|]);
    split; reflexivity.
Qed.

(** *** Reading a connection *)

Lemma callbacks_before_message_complete evs : forall h,
  MessageComplete ∉ evs ->
  exists h', callbacks date evs h = Ok tt h' /\ handled h' = handled h.
Proof.
  induction evs as [|ev evs IH]; intros h Hno; cbn [callbacks]; [by eexists|].
  apply not_elem_of_cons in Hno as [Hev Hno].
  assert (Hcb : exists h1, callback date ev h = Ok tt h1 /\ handled h1 = handled h).
  { destruct ev as [|url|name value|method|data|]; [..|by destruct Hev];
      cbn [callback]; unfold lift; eexists; (split; [reflexivity|]).
    - reflexivity.
    - unfold on_url. by destruct (partition "?" url).
    - reflexivity.
    - unfold on_headers_complete. simpl. by destruct (expects_continue _).
    - unfold on_body. by destruct (bytes_write data (body h) (body_pos h)). }
  destruct Hcb as (h1 & -> & H1).
  destruct (IH h1 Hno) as (h' & -> & H'). exists h'. split; [done|congruence].
Qed.

(** C8 (as the code has it): with keep-alive disabled, [handle] leaves its
    loop after the first chunk it has read, whether or not that chunk
    completes a request.  When the chunk holds only the beginning of a
    request, no request is handled, the rest of the request is never
    read, and the connection is closed. *)
Theorem handle_without_keepalive_stops_after_one_chunk h data rest p evs :
  Options.disable_keepalive (options h) = true ->
  incoming (client h) = RecvData data :: rest ->
  data <> "" ->
  feed_data (parser h) data = (p, evs, None) ->
  MessageComplete ∉ evs ->
  exists h',
    handle feed_data date h = Ok tt h'
    /\ handled h' = handled h
    /\ incoming (client h') = rest
    /\ closed (client h') = true.
Proof.
  intros Hka Hinc Hdata Hfeed Hno. unfold handle. rewrite Hinc.
  cbn [handle_loop]. rewrite bool_decide_eq_false_2 by done.
  unfold parser_feed_data.
  change (parser (with_incoming rest h)) with (parser h). rewrite Hfeed.
  destruct (callbacks_before_message_complete evs
              (with_parser p (with_incoming rest h)) Hno) as (h1 & Hcb & Hh).
  pose proof (settles_callbacks evs (with_parser p (with_incoming rest h))) as Hs.
  rewrite Hcb in Hs |- *. simpl in Hs.
  assert (Hopt : options h1 = options h) by (exact (f_equal snd Hs)).
  assert (Hrest : incoming (client h1) = rest)
    by (exact (f_equal (fun x => x.1.1.2) Hs)).
  rewrite Hopt, Hka. eexists. split; [reflexivity|].
  split; [exact Hh|]. split; [exact Hrest|reflexivity].
Qed.

End HandlerFacts.

(** * The request handler on concrete connections *)

Section HandlerScenarios.
Import RequestHandler.

Lemma app_raises_before_start_writes_500_witness :
  let h := fresh_handler app_raises false [] [] in
  response h = None
  /\ app h (environ h) (body h) = AppRaise (AppException "RuntimeError")
  /\ exists h',
       final_state (handle_request demo_date h) = Some h'
       /\ sent (client h')
          = (sent (client h)
             +:+ header_block "500 Internal Server Error"
                   [("Date", demo_date);
                    ("Server", "Starman/" +:+ Options.version (options h))])
            +:+ "Internal Server Error".
Proof.
  intros h. split; [reflexivity|]. split; [reflexivity|].
  apply (app_raises_before_start_writes_500 demo_date h (AppException "RuntimeError"));
    reflexivity.
Defined.

(** C2 (as stated) fails: the response written for an application that
    raises at once has status 500, but its body is not empty. *)
Lemma app_raises_body_is_not_empty :
  exists h',
    final_state (handle_request demo_date (fresh_handler app_raises false [] []))
      = Some h'
    /\ wire_status (sent (client h')) = Some "HTTP/1.1 500 Internal Server Error"
    /\ wire_body (sent (client h')) = Some "Internal Server Error"
    /\ wire_body (sent (client h')) <> Some "".
Proof.
  eexists. split; [reflexivity|]. split; [vm_compute; reflexivity|].
  split; [vm_compute; reflexivity|]. vm_compute. discriminate.
Qed.

Lemma body_raises_midway_writes_again_witness :
  let h := fresh_handler app_breaks_midway false [] [] in
  exists it h1 h2,
    run_app (app h (environ h) (body h)) (entered h) = Ok (it, false) h1
    /\ is_Some (response h1)
    /\ write_response demo_date it h1 = Raised (AppException "RuntimeError") h2
    /\ exists status hdrs h3,
         response h2 = Some (status, hdrs)
         /\ handle_request demo_date h = Ok tt h3
         /\ sent (client h3)
            = (sent (client h2)
               +:+ header_block status
                     (hdrs ++ [("Server", "Starman/" +:+ Options.version (options h2))]))
              +:+ "Internal Server Error"
         /\ closed (client h3) = closed (client h2).
Proof.
  intros h. do 3 eexists.
  assert (Hrun : run_app (app h (environ h) (body h)) (entered h)
                 = Ok (Yield "part" (IterRaise (AppException "RuntimeError")), false)
                      (with_response (Some ("200 OK", [("Content-Type", "text/plain")]))
                         (entered h))) by reflexivity.
  split; [exact Hrun|].
  assert (Hsome : is_Some (response (with_response
                    (Some ("200 OK", [("Content-Type", "text/plain")])) (entered h))))
    by (by eexists).
  split; [exact Hsome|].
  assert (Hw : write_response demo_date
                 (Yield "part" (IterRaise (AppException "RuntimeError")))
                 (with_response (Some ("200 OK", [("Content-Type", "text/plain")]))
                    (entered h))
               = Raised (AppException "RuntimeError")
                   (sendall "part"
                      (sendall (header_block "200 OK"
                                  [("Content-Type", "text/plain");
                                   ("Date", demo_date);
                                   ("Server", "Starman/0.1.0")])
                         (with_response
                            (Some ("200 OK",
                                   [("Content-Type", "text/plain");
                                    ("Date", demo_date);
                                    ("Server", "Starman/0.1.0")]))
                            (entered h))))) by reflexivity.
  split; [exact Hw|].
  exact (body_raises_midway_writes_again demo_date h _ _ _ _ _ Hrun Hsome Hw eq_refl).
Defined.

(** C5 (as stated) fails: after the body [part] has been written and the
    iterable has raised, more bytes follow on the connection (a second
    status line and an error body), and the connection stays open. *)
Lemma body_raises_midway_more_bytes_follow :
  let h := fresh_handler app_breaks_midway false [] [] in
  let started := with_response (Some ("200 OK", [("Content-Type", "text/plain")]))
                   (entered h) in
  exists h2 h3,
    write_response demo_date (Yield "part" (IterRaise (AppException "RuntimeError")))
      started = Raised (AppException "RuntimeError") h2
    /\ wire_body (sent (client h2)) = Some "part"
    /\ handle_request demo_date h = Ok tt h3
    /\ sent (client h3)
       = sent (client h2)
         +:+ header_block "200 OK"
               [("Content-Type", "text/plain"); ("Date", demo_date);
                ("Server", "Starman/0.1.0"); ("Server", "Starman/0.1.0")]
         +:+ "Internal Server Error"
    /\ sent (client h3) <> sent (client h2)
    /\ closed (client h3) = false.
Proof.
  intros h started. do 2 eexists. split; [reflexivity|].
  split; [vm_compute; reflexivity|]. split; [reflexivity|].
  split; [vm_compute; reflexivity|]. split; [vm_compute; discriminate|reflexivity].
Qed.

Lemma start_response_again_with_exc_info_raises_witness :
  let h := fresh_handler app_hello false [] [] in
  exists h1,
    start_response "200 OK" [] None h = Ok tt h1
    /\ sent (client h1) = ""
    /\ start_response "500 Internal Server Error" []
         (Some (AppException "RuntimeError")) h1
       = Raised (AppException "RuntimeError") h1
    /\ response h1 = Some ("200 OK", []).
Proof.
  intros h. eexists. split; [reflexivity|]. split; [reflexivity|].
  split; [|reflexivity].
  apply (start_response_again_with_exc_info_raises
           (with_response (Some ("200 OK", [])) h)).
  by eexists.
Defined.

(** A request whose bytes arrive in two chunks, on a connection served
    with keep-alive disabled. *)
Lemma handle_without_keepalive_stops_after_one_chunk_witness :
  let second := RecvData ("TP/1.1" +:+ CRLF +:+ CRLF) in
  let h := fresh_handler app_hello true
             [([MessageBegin; Url "/"], None);
              ([HeadersComplete "GET"; MessageComplete], None)]
             [RecvData "GET / HT"; second] in
  exists h',
    handle scripted demo_date h = Ok tt h'
    /\ handled h' = 0%nat
    /\ incoming (client h') = [second]
    /\ closed (client h') = true.
Proof.
  intros second h.
  apply (handle_without_keepalive_stops_after_one_chunk scripted demo_date h
           "GET / HT" [second]
           [([HeadersComplete "GET"; MessageComplete], None)]
           [MessageBegin; Url "/"]).
  - reflexivity.
  - reflexivity.
  - discriminate.
  - reflexivity.
  - intros Hin. apply elem_of_cons in Hin as [Hin|Hin]; [discriminate|].
    apply list_elem_of_singleton in Hin. discriminate.
Defined.

End HandlerScenarios.

(** * Properties of the Worker *)

Section WorkerFacts.
Import Worker.
Context {P : Type}.
Variable feed_data : P -> string -> P * list event * option exn.
Variable date : string.
Variable parser0 : P.
Implicit Types w : @Worker.t P.

Lemma conn_id_init c a opts :
  conn_id (RequestHandler.init parser0 a c (peername c) opts) = (sockname c, peername c).
Proof. reflexivity. Qed.

(** Whatever the loop does, it takes its connections from the queue of
    the first listener, front to back, and touches no other listener. *)
Lemma serve_first_listener q : forall w l ls,
  sockets w = l :: ls ->
  pending l = q ->
  exists w' taken rest,
    final_state (serve feed_data date parser0 q w) = Some w'
    /\ q = taken ++ rest
    /\ sockets w' = set_pending rest l :: ls
    /\ map conn_id (handlers w') = map conn_id (handlers w) ++ connections_of taken.
Proof.
  induction q as [|ev q IH]; intros w l ls Hs Hq.
  - exists w, [], []. cbn [serve]. rewrite Hs. destruct l; simpl in *; subst.
    rewrite app_nil_r. by case_bool_decide.
  - cbn [serve]. case_bool_decide as Hquota; cycle 1.
    { exists w, [], (ev :: q). rewrite Hs, app_nil_r.
      destruct l; simpl in *; subst. done. }
    assert (Hacc : sockets (accepted q w) = set_pending q l :: ls)
      by (unfold accepted; by rewrite Hs).
    destruct ev as [c|e].
    + set (w1 := count_request (accepted q w)).
      pose proof (tracks_handle feed_data date
                    (RequestHandler.init parser0 (app w1) c (peername c) (options w1)))
        as Ht.
      assert (Hdone : forall h,
                conn_id h = (sockname c, peername c) ->
                exists taken rest,
                  AcceptConn c :: q = taken ++ rest
                  /\ sockets (record_handler h w1) = set_pending rest l :: ls
                  /\ map conn_id (handlers (record_handler h w1))
                     = map conn_id (handlers w) ++ connections_of taken).
      { intros h Hid. exists [AcceptConn c], q. split; [done|]. split; [exact Hacc|].
        simpl. rewrite map_app. simpl. by rewrite Hid. }
      assert (Hnext : forall h,
                conn_id h = (sockname c, peername c) ->
                exists w' taken rest,
                  final_state (serve feed_data date parser0 q (record_handler h w1))
                    = Some w'
                  /\ AcceptConn c :: q = taken ++ rest
                  /\ sockets w' = set_pending rest l :: ls
                  /\ map conn_id (handlers w')
                     = map conn_id (handlers w) ++ connections_of taken).
      { intros h Hid.
        destruct (IH (record_handler h w1) (set_pending q l) ls Hacc eq_refl)
          as (w' & taken & rest & Hf & -> & Hsock & Hh).
        exists w', (AcceptConn c :: taken), rest. split; [exact Hf|].
        split; [done|]. split; [exact Hsock|].
        rewrite Hh. simpl. rewrite map_app. simpl. rewrite Hid.
        by rewrite <- app_assoc. }
      destruct (RequestHandler.handle _ _ _) as [[] h|e h|h|]; try done;
        simpl in Ht.
      * by apply Hnext.
      * destruct (Hdone h Ht) as (taken & rest & Hx).
        destruct e as [n| | | | | | | | | | | |];
          try (eexists _, taken, rest; split; [reflexivity|exact Hx]).
        destruct (transient n); [by apply Hnext|].
        eexists _, taken, rest; split; [reflexivity|exact Hx].
      * destruct (Hdone h Ht) as (taken & rest & Hx).
        eexists _, taken, rest; split; [reflexivity|exact Hx].
    + destruct (transient e).
      * destruct (IH (accepted q w) (set_pending q l) ls Hacc eq_refl)
          as (w' & taken & rest & Hf & -> & Hsock & Hh).
        exists w', (AcceptError e :: taken), rest. by repeat split.
      * exists (accepted q w), [AcceptError e], q. simpl.
        rewrite app_nil_r. by repeat split.
Qed.

(** C10: a Worker takes connections from the accept queue of the first
    listener only.  Whatever waits on the second and later listeners,
    these are as they were when the loop stops, and every connection the
    Worker has handled is one from the front of the first queue.  The
    same holds of [run] as a whole, which accepts nothing. *)
Theorem worker_accepts_on_first_listener_only a opts l ls n hs :
  let w := Worker.mk a opts (l :: ls) n hs in
  (exists w' taken rest,
     final_state (accept_loop feed_data date parser0 w) = Some w'
     /\ pending l = taken ++ rest
     /\ sockets w' = set_pending rest l :: ls
     /\ map conn_id (handlers w') = map conn_id hs ++ connections_of taken)
  /\ (exists w',
       final_state (run feed_data date parser0 w) = Some w'
       /\ sockets w' = l :: ls
       /\ handlers w' = hs).
Proof.
  intros w. split.
  - unfold accept_loop. simpl.
    apply (serve_first_listener (pending l) w l ls); reflexivity.
  - exists w. by repeat split.
Qed.

Lemma serve_quota cs : forall w l ls rest,
  sockets w = l :: ls ->
  pending l = map AcceptConn cs ++ rest ->
  requests_processed w + Z.of_nat (length cs) = Options.max_requests (options w) ->
  Forall (fun c => returns (RequestHandler.handle feed_data date
                              (RequestHandler.init parser0 (app w) c (peername c)
                                 (options w))) = true) cs ->
  exists w',
    serve feed_data date parser0 (map AcceptConn cs ++ rest) w = Ok tt w'
    /\ requests_processed w' = Options.max_requests (options w)
    /\ sockets w' = set_pending rest l :: ls
    /\ map conn_id (handlers w')
       = map conn_id (handlers w) ++ map (fun c => (sockname c, peername c)) cs.
Proof.
  induction cs as [|c cs IH]; intros w l ls rest Hs Hq Hn Hall.
  - exists w. simpl in *.
    assert (Hstop : serve feed_data date parser0 rest w = Ok tt w)
      by (destruct rest; cbn [serve]; by rewrite bool_decide_eq_false_2 by lia).
    split; [exact Hstop|]. split; [lia|]. rewrite app_nil_r. split; [|done].
    rewrite Hs. destruct l; simpl in *; by subst.
  - apply Forall_cons in Hall as [Hc Hall].
    change (map AcceptConn (c :: cs) ++ rest)
      with (AcceptConn c :: (map AcceptConn cs ++ rest)) in *.
    cbn [serve].
    rewrite bool_decide_eq_true_2 by (simpl in Hn; lia).
    set (q := map AcceptConn cs ++ rest).
    set (w1 := count_request (accepted q w)).
    change (app w1) with (app w). change (options w1) with (options w).
    pose proof (tracks_handle feed_data date
                  (RequestHandler.init parser0 (app w) c (peername c) (options w)))
      as Ht.
    destruct (RequestHandler.handle _ _ _) as [[] h|e h|h|]; try done.
    simpl in Ht.
    destruct (IH (record_handler h w1) (set_pending q l) ls rest) as (w' & Hw' & Hn' & Hs' & Hh').
    + unfold w1, accepted. simpl. by rewrite Hs.
    + reflexivity.
    + simpl in *. lia.
    + exact Hall.
    + exists w'. split; [exact Hw'|]. split; [exact Hn'|]. split; [exact Hs'|].
      rewrite Hh'. simpl. rewrite map_app. simpl. rewrite Ht.
      by rewrite <- app_assoc.
Qed.

(** C3 (amended): for every [n >= 1], the accept loop of a Worker with
    [max_requests = n] that has processed nothing yet accepts exactly the
    first [n] connections of its queue, handles each to the end (however
    many requests the connection carries), and then leaves the loop
    normally, with whatever follows in the queue not accepted; this when
    [accept] fails on none of them and each handler returns. *)
Theorem accept_loop_serves_quota_of_connections w l ls cs rest n :
  n >= 1 ->
  Options.max_requests (options w) = n ->
  requests_processed w = 0 ->
  sockets w = l :: ls ->
  pending l = map AcceptConn cs ++ rest ->
  Z.of_nat (length cs) = n ->
  Forall (fun c => returns (RequestHandler.handle feed_data date
                              (RequestHandler.init parser0 (app w) c (peername c)
                                 (options w))) = true) cs ->
  exists w',
    accept_loop feed_data date parser0 w = Ok tt w'
    /\ requests_processed w' = n
    /\ sockets w' = set_pending rest l :: ls
    /\ map conn_id (handlers w')
       = map conn_id (handlers w) ++ map (fun c => (sockname c, peername c)) cs.
Proof.
  intros Hn Hmax H0 Hs Hq Hlen Hall. unfold accept_loop. rewrite Hs, Hq.
  destruct (serve_quota cs w l ls rest Hs Hq) as (w' & Hw' & Hn' & Hrest);
    [lia|exact Hall|].
  exists w'. split; [exact Hw'|]. split; [congruence|exact Hrest].
Qed.

(** The statements of [run] before the loop raise [NameError]: [run]
    accepts nothing. *)
Lemma run_raises_NameError w :
  run feed_data date parser0 w = Raised (NameError "signal") w.
Proof. reflexivity. Qed.

End WorkerFacts.

(** * The Worker on concrete queues *)

Section WorkerScenarios.
Import Worker.

Lemma accept_loop_serves_quota_of_connections_witness :
  let cs := [one_request_connection; one_request_connection; one_request_connection] in
  let rest := [AcceptConn one_request_connection] in
  let w := demo_worker (map AcceptConn cs ++ rest) in
  exists w',
    accept_loop scripted demo_date one_request w = Ok tt w'
    /\ requests_processed w' = 3
    /\ sockets w' = set_pending rest (demo_listener (map AcceptConn cs ++ rest))
                      :: tail (sockets w)
    /\ map conn_id (handlers w')
       = map conn_id (handlers w) ++ map (fun c => (sockname c, peername c)) cs.
Proof.
  intros cs rest w.
  apply (accept_loop_serves_quota_of_connections scripted demo_date one_request w
           (demo_listener (map AcceptConn cs ++ rest)) (tail (sockets w)) cs rest 3).
  - lia.
  - reflexivity.
  - reflexivity.
  - reflexivity.
  - reflexivity.
  - reflexivity.
  - repeat constructor.
Defined.

(** C3 (as stated) fails: the quota counts accepted connections, not
    requests.  With [max_requests = 3] and a first peer that closes
    without sending anything, the loop ends normally after the third
    connection, having served two requests. *)
Lemma accept_loop_quota_counts_connections :
  let w := demo_worker [AcceptConn silent_connection;
                        AcceptConn one_request_connection;
                        AcceptConn one_request_connection;
                        AcceptConn one_request_connection] in
  exists w',
    Options.max_requests (options w) = 3
    /\ accept_loop scripted demo_date one_request w = Ok tt w'
    /\ requests_processed w' = 3
    /\ requests_served w' = 2%nat
    /\ requests_served w' <> 3%nat.
Proof.
  intros w. eexists. split; [reflexivity|]. split; [vm_compute; reflexivity|].
  split; [reflexivity|]. split; [reflexivity|].
  vm_compute. intros H. discriminate H.
Qed.

End WorkerScenarios.

(** * Further properties of the Master *)

Section MoreServerFacts.
Import Server ServerSpec MasterSpec.


Lemma delitem_absent {V} (k : Z) (d : list (Z * V)) : k ∉ keys d -> delitem k d = d.
Proof.
  unfold delitem, keys. induction d as [|[k' v] d IH]; [done|]. simpl.
  intros Hk. apply not_elem_of_cons in Hk as [Hne Hk].
  rewrite filter_cons_True by (simpl; congruence). by rewrite IH.
Qed.

Lemma setitem_absent {V} (k : Z) (v : V) (d : list (Z * V)) :
  k ∉ keys d -> setitem k v d = d ++ [(k, v)].
Proof.
  unfold keys. induction d as [|[k' v'] d IH]; [done|]. simpl.
  intros Hk. apply not_elem_of_cons in Hk as [Hne Hk].
  rewrite bool_decide_eq_false_2 by congruence. by rewrite IH.
Qed.

Lemma with_workers_with_workers f g s :
  with_workers f (with_workers g s) = with_workers (fun ws => f (g ws)) s.
Proof. reflexivity. Qed.

Lemma with_workers_id s : with_workers (fun ws => ws) s = s.
Proof. by destruct s. Qed.

Lemma with_workers_same f s : f (workers s) = workers s -> with_workers f s = s.
Proof. destruct s. unfold with_workers. simpl. by intros ->. Qed.

(** [kill_workers] in general. *)
Lemma kill_each_in_general sig pids : forall w,
  fold_left (kill_worker sig) pids w
  = mk_world
      (with_workers (filter (fun kv => ~ (kv.1 ∈ pids /\ ~ exists_in (sys w) kv.1)))
         (self w))
      (signalled sig (filter (exists_in (sys w)) pids) (sys w)).
Proof.
  induction pids as [|p pids IH]; intros w.
  - simpl. rewrite signalled_nil. destruct w as [s o]. simpl. f_equal.
    rewrite <- (with_workers_id s) at 1. unfold with_workers. f_equal.
    induction (workers s) as [|kv ws IHw]; [done|].
    rewrite filter_cons_True; [by rewrite <- IHw|].
    intros [Hin _]. by apply elem_of_nil in Hin.
  - cbn [fold_left]. rewrite IH. unfold kill_worker, os_kill.
    case_bool_decide as Hp.
    + simpl. rewrite filter_cons_True by done. f_equal.
      * unfold with_workers. f_equal. apply list_filter_iff. intros kv.
        unfold exists_in. simpl. split; intros Hn [Hin Hdead].
        -- apply elem_of_cons in Hin as [Heq|Hin]; [by rewrite Heq in Hdead|].
           apply Hn. by split.
        -- apply Hn. split; [by right|done].
      * unfold signalled. simpl. by rewrite <- app_assoc.
    + simpl. rewrite filter_cons_False by done. f_equal.
      unfold with_workers. simpl. f_equal. unfold delitem.
      rewrite list_filter_filter. apply list_filter_iff. intros kv.
      unfold exists_in. split.
      * intros [Hn Hne] [Hin Hdead]. apply elem_of_cons in Hin as [Heq|Hin]; [done|].
        apply Hn. by split.
      * intros Hn. split.
        -- intros [Hin Hdead]. apply Hn. split; [by right|done].
        -- intros Heq. apply Hn. rewrite Heq. split; [left|done].
Qed.

Lemma filter_agree {A} (P Q : A -> Prop) `{!forall x, Decision (P x)}
    `{!forall x, Decision (Q x)} (l : list A) :
  (forall x, x ∈ l -> P x <-> Q x) -> filter P l = filter Q l.
Proof.
  induction l as [|x l IH]; intros Hpq; [done|].
  rewrite !filter_cons.
  destruct (decide (P x)) as [Hp|Hp], (decide (Q x)) as [Hq|Hq].
  - f_equal. apply IH. intros y Hy. apply Hpq. by right.
  - exfalso. apply Hq, (Hpq x); [left|done].
  - exfalso. apply Hp, (Hpq x); [left|done].
  - apply IH. intros y Hy. apply Hpq. by right.
Qed.

Lemma kill_workers_in_general sig w :
  kill_workers sig w
  = mk_world
      (with_workers (filter (fun kv => exists_in (sys w) kv.1)) (self w))
      (signalled sig (filter (exists_in (sys w)) (keys (workers (self w)))) (sys w)).
Proof.
  unfold kill_workers. rewrite kill_each_in_general. f_equal.
  unfold with_workers. f_equal. apply filter_agree. intros kv Hkv. split.
  - intros Hn. destruct (decide (exists_in (sys w) kv.1)) as [|Hd]; [done|].
    exfalso. apply Hn. split; [|done]. unfold keys. by apply (list_elem_of_fmap_2 fst).
  - intros Hex [_ Hd]. done.
Qed.

(** X1: [kill_workers] sends the signal to exactly the workers of the map
    that exist as processes, in the order of the map, and drops from the
    map exactly those that do not (for which [os.kill] fails with ESRCH);
    it changes neither the set of children nor anything else of the
    Master. *)
Theorem kill_workers_signals_the_living_and_drops_the_rest sig w :
  let w' := kill_workers sig w in
  workers (self w') = filter (fun kv => exists_in (sys w) kv.1) (workers (self w))
  /\ delivered (sys w')
     = delivered (sys w)
       ++ map (fun p => (p, sig)) (filter (exists_in (sys w)) (keys (workers (self w))))
  /\ children (sys w') = children (sys w)
  /\ control (self w') = control (self w).
Proof.
  intros w'. subst w'. rewrite kill_workers_in_general. by repeat split.
Qed.

Lemma shifted_seq {A} (f : nat -> A) n m :
  map f (seq n m) = map (fun i => f (n + i)%nat) (seq 0 m).
Proof.
  revert n f. induction m as [|m IH]; intros n f; [done|]. simpl.
  rewrite Nat.add_0_r. f_equal. rewrite (IH (S n)), (IH 1%nat).
  apply map_ext. intros i. f_equal. lia.
Qed.

Lemma after_spawning_0 w : after_spawning 0 w = w.
Proof.
  destruct w as [s o]. unfold after_spawning, spawned, forked. simpl.
  rewrite app_nil_r, Z.add_0_r. f_equal; [|by destruct o].
  destruct s. unfold with_workers. simpl. by rewrite app_nil_r.
Qed.

Lemma numbered_more {A} (f : Z -> A) (b : Z) n m :
  map (fun i => f (b + Z.of_nat i)) (seq 0 n)
    ++ map (fun i => f (b + Z.of_nat n + Z.of_nat i)) (seq 0 m)
  = map (fun i => f (b + Z.of_nat i)) (seq 0 (n + m)).
Proof.
  rewrite seq_app, map_app. f_equal. simpl.
  rewrite (shifted_seq _ n m). apply map_ext. intros i. f_equal. lia.
Qed.

Lemma after_spawning_more n m w :
  after_spawning m (after_spawning n w) = after_spawning (n + m) w.
Proof.
  unfold after_spawning, spawned, forked, with_workers. simpl.
  rewrite <- !app_assoc.
  rewrite (numbered_more (fun p => (p, clock (sys w)))).
  rewrite (numbered_more (fun p => (p, Running))).
  do 2 f_equal. lia.
Qed.

Lemma pids_below_next_after_spawning n w :
  pids_below_next w -> pids_below_next (after_spawning n w).
Proof.
  unfold pids_below_next, after_spawning, keys, spawned. simpl. intros Hw.
  rewrite fmap_app. apply Forall_app. split.
  - eapply Forall_impl; [exact Hw|]. simpl. intros p Hp. lia.
  - apply Forall_forall. intros p Hp.
    apply list_elem_of_fmap in Hp as ([q t] & -> & Hq). simpl.
    apply list_elem_of_In, in_map_iff in Hq as (i & [= <- <-] & Hi).
    apply in_seq in Hi. lia.
Qed.

Lemma spawn_worker_below_next w :
  pids_below_next w -> spawn_worker w = after_spawning 1 w.
Proof.
  intros Hw. unfold spawn_worker, os_fork, after_spawning, spawned, forked. simpl.
  rewrite Z.add_0_r. f_equal. unfold with_workers. simpl. f_equal.
  apply setitem_absent. intros Hin.
  unfold pids_below_next in Hw. rewrite Forall_forall in Hw.
  specialize (Hw _ Hin). lia.
Qed.

Lemma iter_spawn_worker n : forall w,
  pids_below_next w -> Nat.iter n spawn_worker w = after_spawning n w.
Proof.
  induction n as [|n IH]; intros w Hw.
  - by rewrite after_spawning_0.
  - rewrite Nat.iter_succ, IH by done.
    rewrite spawn_worker_below_next by (by apply pids_below_next_after_spawning).
    rewrite after_spawning_more. f_equal. lia.
Qed.

Lemma live_after_spawning n w : live (after_spawning n w) = live w + Z.of_nat n.
Proof.
  unfold live, after_spawning, spawned. simpl.
  rewrite length_app, length_map, length_seq. lia.
Qed.

(** X3: when fewer workers are live than desired, [maintain_worker_count]
    forks exactly the deficit: the map keeps its entries and gains the new
    pids at its end, the live count equals the desired count afterwards,
    and no signal is sent. *)
Theorem maintain_worker_count_fills_the_deficit w :
  pids_below_next w ->
  live w < worker_count (self w) ->
  maintain_worker_count w
  = after_spawning (Z.to_nat (worker_count (self w) - live w)) w
  /\ live (maintain_worker_count w) = worker_count (self w)
  /\ delivered (sys (maintain_worker_count w)) = delivered (sys w).
Proof.
  intros Hw Hd.
  assert (Hm : maintain_worker_count w
               = after_spawning (Z.to_nat (worker_count (self w) - live w)) w).
  { unfold maintain_worker_count. rewrite bool_decide_eq_true_2 by lia.
    by apply iter_spawn_worker. }
  rewrite Hm. split; [done|]. rewrite live_after_spawning. split; [lia|done].
Qed.

Lemma spawn_workers_loop_enough fuel : forall w,
  pids_below_next w ->
  (Z.to_nat (worker_count (self w) - live w) <= fuel)%nat ->
  spawn_workers_loop fuel w
  = Ok tt (after_spawning (Z.to_nat (worker_count (self w) - live w)) w).
Proof.
  induction fuel as [|n IH]; intros w Hw Hfuel; cbn [spawn_workers_loop];
    case_bool_decide as Hlt.
  - lia.
  - replace (Z.to_nat _) with 0%nat by lia. by rewrite after_spawning_0.
  - rewrite spawn_worker_below_next by done.
    rewrite IH.
    + rewrite after_spawning_more. do 2 f_equal.
      change (worker_count (self (after_spawning 1 w))) with (worker_count (self w)).
      rewrite live_after_spawning. lia.
    + by apply pids_below_next_after_spawning.
    + change (worker_count (self (after_spawning 1 w))) with (worker_count (self w)).
      rewrite live_after_spawning. lia.
  - replace (Z.to_nat _) with 0%nat by lia. by rewrite after_spawning_0.
Qed.

Lemma maintain_worker_count_fills_the_deficit_witness :
  pids_below_next one_of_three
  /\ live one_of_three < worker_count (self one_of_three)
  /\ maintain_worker_count one_of_three = after_spawning 2 one_of_three
  /\ live (maintain_worker_count one_of_three) = 3
  /\ delivered (sys (maintain_worker_count one_of_three)) = [].
Proof.
  assert (H1 : pids_below_next one_of_three)
    by (unfold pids_below_next; simpl; repeat constructor).
  assert (H2 : live one_of_three < worker_count (self one_of_three)) by reflexivity.
  split; [exact H1|]. split; [exact H2|].
  exact (maintain_worker_count_fills_the_deficit one_of_three H1 H2).
Defined.

(** X2: [spawn_workers] ends (its loop does not run for ever) and brings
    the live count up to the desired count, leaving it alone when it is
    already as high; the workers it adds have new pids. *)
Theorem spawn_workers_reaches_the_desired_count w :
  pids_below_next w ->
  exists w',
    spawn_workers w = Ok tt w'
    /\ w' = after_spawning (Z.to_nat (worker_count (self w) - live w)) w
    /\ live w' = Z.max (live w) (worker_count (self w))
    /\ pids_below_next w'.
Proof.
  intros Hw. eexists. split; [by apply spawn_workers_loop_enough|].
  split; [done|]. rewrite live_after_spawning.
  split; [lia|by apply pids_below_next_after_spawning].
Qed.

Lemma spawn_workers_reaches_the_desired_count_witness :
  pids_below_next one_of_three
  /\ exists w',
       spawn_workers one_of_three = Ok tt w'
       /\ w' = after_spawning
                 (Z.to_nat (worker_count (self one_of_three) - live one_of_three))
                 one_of_three
       /\ live w' = Z.max (live one_of_three) (worker_count (self one_of_three))
       /\ pids_below_next w'.
Proof.
  assert (H1 : pids_below_next one_of_three)
    by (unfold pids_below_next; simpl; repeat constructor).
  split; [exact H1|].
  exact (spawn_workers_reaches_the_desired_count one_of_three H1).
Defined.

Lemma filter_everything {A} (P : A -> Prop) `{!forall x, Decision (P x)} (l : list A) :
  (forall x, x ∈ l -> P x) -> filter P l = l.
Proof.
  induction l as [|x l IH]; intros Hall; [done|].
  rewrite filter_cons_True by (apply Hall; left). f_equal. apply IH.
  intros y Hy. apply Hall. by right.
Qed.

Lemma reaped_deletes block pid w :
  bool_decide (pid = 0) && negb block = false ->
  (reaped block pid w).1 = on_self (with_workers (delitem pid)) w.
Proof.
  intros Hb. unfold reaped. rewrite Hb.
  assert (Hdel : (if contains pid (workers (self w))
                  then on_self (with_workers (delitem pid)) w else w)
                 = on_self (with_workers (delitem pid)) w).
  { unfold contains.
    destruct (bool_decide (pid ∈ keys (workers (self w)))) eqn:Hin; [done|].
    apply bool_decide_eq_false in Hin.
    destruct w as [s o]. unfold on_self, with_workers. simpl in *. f_equal.
    rewrite delitem_absent by done. by destruct s. }
  rewrite Hdel. by destruct (block && _).
Qed.

Lemma reap_loop_everyone_exited cs : forall w fuel,
  children (sys w) = cs ->
  Forall (fun c => has_exited c = true /\ c.1 <> 0) cs ->
  (length cs < fuel)%nat ->
  reap_loop fuel false w
  = Ok tt (mk_world
             (with_workers (filter (fun kv => kv.1 ∉ cs.*1)) (self w))
             (mk_os [] (next_pid (sys w)) (clock (sys w)) (delivered (sys w)))).
Proof.
  induction cs as [|[p st] cs IH]; intros w fuel Hcs Hall Hfuel;
    (destruct fuel as [|n]; [simpl in Hfuel; lia|]); cbn [reap_loop];
    unfold os_waitpid; rewrite Hcs.
  - simpl. destruct w as [s o]. simpl in *. f_equal. f_equal.
    + symmetry. apply with_workers_same. apply filter_everything.
      intros kv _ Hin. by apply elem_of_nil in Hin.
    + destruct o. simpl in *. by subst.
  - apply Forall_cons in Hall as [[Hex Hp] Hall]. simpl in Hp.
    destruct st as [|st]; [done|]. cbn [take_exited].
    assert (Hb : bool_decide (p = 0) && negb false = false)
      by (by rewrite bool_decide_eq_false_2).
    pose proof (reaped_deletes false p
                  (mk_world (self w) (mk_os cs (next_pid (sys w)) (clock (sys w))
                                            (delivered (sys w)))) Hb) as Hr.
    destruct (reaped false p _) as [w1 brk] eqn:Hreaped. simpl in Hr. subst w1.
    assert (brk = false) as ->.
    { unfold reaped in Hreaped. rewrite Hb in Hreaped. simpl in Hreaped.
      by injection Hreaped. }
    rewrite (IH _ n); [|reflexivity|exact Hall|simpl in Hfuel; lia].
    simpl. do 2 f_equal. unfold with_workers. simpl. f_equal. unfold delitem.
    rewrite list_filter_filter. apply list_filter_iff. intros kv. simpl.
    rewrite not_elem_of_cons. tauto.
Qed.

(** X4: when every child of the Master has exited, [reap_workers()] returns
    after reaping them all: no child is left, and the map has lost exactly
    the pids of the reaped children. *)
Theorem reap_workers_collects_every_exited_child w :
  Forall (fun c => has_exited c = true /\ c.1 <> 0) (children (sys w)) ->
  reap_workers false w
  = Ok tt (mk_world
             (with_workers (filter (fun kv => kv.1 ∉ (children (sys w)).*1)) (self w))
             (mk_os [] (next_pid (sys w)) (clock (sys w)) (delivered (sys w)))).
Proof.
  intros Hall. unfold reap_workers. by apply reap_loop_everyone_exited; [|done|lia].
Qed.

Lemma reap_workers_collects_every_exited_child_witness :
  Forall (fun c => has_exited c = true /\ c.1 <> 0) (children (sys two_exited))
  /\ reap_workers false two_exited
     = Ok tt (mk_world (mk [] [] true 2 false false false false) (mk_os [] 103 7 [])).
Proof.
  assert (H1 : Forall (fun c => has_exited c = true /\ c.1 <> 0)
                 (children (sys two_exited)))
    by (simpl; repeat constructor; discriminate).
  split; [exact H1|].
  exact (reap_workers_collects_every_exited_child two_exited H1).
Defined.

Lemma reaped_break pid w w1 :
  reaped true pid w = (w1, true) -> workers (self w1) = [].
Proof.
  unfold reaped. rewrite andb_false_r. simpl.
  case_bool_decide as Hw; [|done]. by intros [= <-].
Qed.

Lemma reap_loop_block_returns fuel : forall w w',
  reap_loop fuel true w = Ok tt w' ->
  workers (self w') = [] \/ children (sys w') = [].
Proof.
  induction fuel as [|n IH]; intros w w'; cbn [reap_loop]; [done|].
  unfold os_waitpid.
  destruct (children (sys w)) as [|c cs] eqn:Hcs.
  - simpl. intros [= <-]. by right.
  - destruct (take_exited (c :: cs)) as [[[p st] rest]|].
    + destruct (reaped true p _) as [w1 brk] eqn:Hr. destruct brk.
      * intros [= <-]. left. by apply (reaped_break _ _ _ Hr).
      * apply IH.
    + simpl. destruct (reaped true 0 w) as [w1 brk] eqn:Hr. destruct brk; [|done].
      intros [= <-]. left. by apply (reaped_break _ _ _ Hr).
Qed.

(** X5: [reap_workers(block=True)] returns only when the worker map is
    empty or the Master has no child left. *)
Theorem reap_workers_block_returns_with_no_worker_or_no_child w w' :
  reap_workers true w = Ok tt w' ->
  workers (self w') = [] \/ children (sys w') = [].
Proof. apply reap_loop_block_returns. Qed.

Lemma reap_workers_block_returns_with_no_worker_or_no_child_witness :
  let w' := mk_world (mk [] [] true 2 false false false false) (mk_os [] 103 7 []) in
  reap_workers true two_exited = Ok tt w'
  /\ (workers (self w') = [] \/ children (sys w') = []).
Proof.
  intros w'.
  assert (H1 : reap_workers true two_exited = Ok tt w') by reflexivity.
  split; [exact H1|].
  exact (reap_workers_block_returns_with_no_worker_or_no_child two_exited w' H1).
Defined.

(** X7: when [check_signals] returns, no signal flag is pending any more,
    and [running] is false if a stop signal was pending and unchanged
    otherwise. *)
Theorem check_signals_consumes_every_flag w w' :
  check_signals w = Ok tt w' ->
  _hup_received (self w') = false
  /\ _quit_received (self w') = false
  /\ _ttin_received (self w') = false
  /\ _ttou_received (self w') = false
  /\ running (self w') = (if _quit_received (self w) then false else running (self w)).
Proof.
  unfold check_signals, bind, lift.
  destruct (_hup_received (self w)) eqn:Hhup.
  - destruct (graceful_restart _) as [[] w1|e w1|w1|] eqn:Hg; simpl; try done.
    eassert (Hc : control (self w1) = _)
      by (apply control_graceful_restart; by rewrite Hg).
    unfold control in Hc. simpl in Hc.
    injection Hc as _ Hrun _ Hhu Hqu Hin Hou. intros [= <-].
    rewrite <- Hqu, <- Hrun. clear Hg.
    destruct w1 as [[? ? ru ? hu qu ti to] o1]. simpl in *. subst hu.
    destruct qu, ti, to; simpl; try case_bool_decide; simpl; done.
  - simpl. intros [= <-].
    destruct w as [[? ? ru ? hu qu ti to] o]. simpl in *. subst hu.
    destruct qu, ti, to; simpl; try case_bool_decide; simpl; done.
Qed.

Lemma check_signals_consumes_every_flag_witness :
  let w := on_self (SIGNALS SIGQUIT) (on_self (SIGNALS SIGTTIN) one_of_three) in
  let w' := mk_world (mk [] [(101, 0)] false 4 false false false false)
                     (mk_os [(101, Running)] 104 7 []) in
  check_signals w = Ok tt w'
  /\ _hup_received (self w') = false
  /\ _quit_received (self w') = false
  /\ _ttin_received (self w') = false
  /\ _ttou_received (self w') = false
  /\ running (self w') = (if _quit_received (self w) then false else running (self w)).
Proof.
  intros w w'.
  assert (H1 : check_signals w = Ok tt w') by reflexivity.
  split; [exact H1|].
  exact (check_signals_consumes_every_flag w w' H1).
Defined.

Lemma handler_twice sig s : SIGNALS sig (SIGNALS sig s) = SIGNALS sig s.
Proof. by destruct sig. Qed.

(** X8: a signal delivered several times before the next tick acts once:
    the handlers only set a flag, so [check_signals] does the same after
    [n + 1] deliveries of a signal as after one. *)
Theorem repeated_signal_counts_once sig n w :
  check_signals (Nat.iter (S n) (on_self (SIGNALS sig)) w)
  = check_signals (on_self (SIGNALS sig) w).
Proof.
  f_equal. induction n as [|n IH]; [done|].
  rewrite Nat.iter_succ, IH. unfold on_self. simpl. by rewrite handler_twice.
Qed.

Lemma rsplit_colon_none s : occurs ":" s = false -> rsplit_colon s = None.
Proof.
  induction s as [|c s IH]; [done|]. simpl. intros Hc.
  apply orb_false_iff in Hc as [Hc Hs]. by rewrite IH, Hc.
Qed.

Lemma rsplit_colon_prefix h : forall p,
  occurs ":" p = false -> rsplit_colon (h +:+ ":" +:+ p) = Some (h, p).
Proof.
  induction h as [|c h IH]; intros p Hp; simpl.
  - by rewrite rsplit_colon_none.
  - by rewrite IH.
Qed.

Lemma rsplit_colon_splits_at_the_last_colon s :
  match rsplit_colon s with
  | Some (h, p) => s = h +:+ ":" +:+ p /\ occurs ":" p = false
  | None => occurs ":" s = false
  end.
Proof.
  induction s as [|c s IH]; [done|]. simpl.
  destruct (rsplit_colon s) as [[h p]|].
  - destruct IH as [-> Hp]. done.
  - rewrite IH, orb_false_r. case_bool_decide as Hc; [|done].
    subst c. done.
Qed.

Lemma keys_delitem_inv {V} (p q : Z) (d : list (Z * V)) :
  q ∈ keys (delitem p d) -> q <> p /\ q ∈ keys d.
Proof.
  unfold keys, delitem. intros Hq.
  apply list_elem_of_fmap in Hq as ([k v] & -> & Hkv).
  apply list_elem_of_filter in Hkv as [Hne Hin]. split; [done|].
  by apply (list_elem_of_fmap_2 fst) in Hin.
Qed.

(** What [reap_workers] leaves alone in the operating system and in the
    Master. *)
Lemma reap_loop_block_everyone_exited cs : forall w fuel,
  children (sys w) = cs ->
  Forall (fun c => has_exited c = true) cs ->
  (forall p, p ∈ keys (workers (self w)) -> p ∈ cs.*1) ->
  (length cs < fuel)%nat ->
  exists w',
    reap_loop fuel true w = Ok tt w'
    /\ workers (self w') = []
    /\ control (self w') = control (self w)
    /\ next_pid (sys w') = next_pid (sys w)
    /\ delivered (sys w') = delivered (sys w).
Proof.
  induction cs as [|[p st] cs IH]; intros w fuel Hcs Hall Hkeys Hfuel;
    (destruct fuel as [|n]; [simpl in Hfuel; lia|]); cbn [reap_loop];
    unfold os_waitpid; rewrite Hcs.
  - exists w. simpl. repeat split.
    destruct (workers (self w)) as [|[k v] ws]; [done|].
    specialize (Hkeys k). simpl in Hkeys. exfalso.
    eapply elem_of_nil, Hkeys. left.
  - apply Forall_cons in Hall as [Hex Hall].
    destruct st as [|st]; [done|]. cbn [take_exited].
    set (w1 := mk_world (self w) (mk_os cs (next_pid (sys w)) (clock (sys w))
                                         (delivered (sys w)))).
    assert (Hb : bool_decide (p = 0) && negb true = false) by apply andb_false_r.
    pose proof (reaped_deletes true p w1 Hb) as Hr.
    destruct (reaped true p w1) as [w2 brk] eqn:Hreaped. simpl in Hr. subst w2.
    destruct brk.
    + eexists. split; [reflexivity|]. split; [by apply (reaped_break _ _ _ Hreaped)|].
      by repeat split.
    + destruct (IH (on_self (with_workers (delitem p)) w1) n) as (w' & Hw' & H1 & H2 & H3 & H4).
      * reflexivity.
      * exact Hall.
      * intros q Hq. simpl in Hq. apply keys_delitem_inv in Hq as [Hne Hq].
        specialize (Hkeys q Hq). simpl in Hkeys.
        apply elem_of_cons in Hkeys as [?|?]; [done|done].
      * simpl in Hfuel. lia.
      * exists w'. split; [exact Hw'|]. split; [exact H1|]. by repeat split.
Qed.

(** X6: a reload when every child has exited: [graceful_restart] returns,
    the desired count is unchanged, the map holds as many workers as
    desired, all of them new (their pids are not below the next pid at
    the time of the call, so none is a pid of the old map), and every old
    worker that still existed as a process was sent SIGTERM. *)
Theorem graceful_restart_replaces_the_pool w :
  Forall (fun c => has_exited c = true) (children (sys w)) ->
  pids_below_next w ->
  exists w',
    graceful_restart w = Ok tt w'
    /\ worker_count (self w') = worker_count (self w)
    /\ live w' = Z.max 0 (worker_count (self w))
    /\ (forall p, p ∈ keys (workers (self w')) -> next_pid (sys w) <= p)
    /\ (forall p, p ∈ keys (workers (self w)) -> p ∉ keys (workers (self w')))
    /\ (forall p, p ∈ keys (workers (self w)) -> exists_in (sys w) p ->
          (p, SIGTERM) ∈ delivered (sys w')).
Proof.
  intros Hall Hbelow. unfold graceful_restart, bind, lift.
  rewrite kill_workers_in_general.
  set (wk := mk_world _ _).
  destruct (reap_loop_block_everyone_exited (children (sys w)) wk
              (S (length (children (sys w))))) as (w1 & Hw1 & Hempty & Hc & Hnext & Hdel).
  - reflexivity.
  - exact Hall.
  - intros p Hp. simpl in Hp. unfold keys in Hp.
    apply list_elem_of_fmap in Hp as ([k v] & -> & Hkv).
    by apply list_elem_of_filter in Hkv as [Hex _].
  - lia.
  - unfold reap_workers. change (children (sys wk)) with (children (sys w)).
    rewrite Hw1.
    assert (Hb1 : pids_below_next w1).
    { unfold pids_below_next. rewrite Hempty. constructor. }
    assert (Hwc : worker_count (self w1) = worker_count (self w)).
    { unfold control in Hc. by injection Hc. }
    assert (Hlive1 : live w1 = 0) by (unfold live; by rewrite Hempty).
    eexists. split; [by apply spawn_workers_loop_enough|].
    split; [exact Hwc|]. split; [rewrite live_after_spawning; lia|].
    assert (Hnew : forall p, p ∈ keys (workers (self (after_spawning
                     (Z.to_nat (worker_count (self w1) - live w1)) w1))) ->
                   next_pid (sys w) <= p).
    { intros p Hp. simpl in Hp. rewrite Hempty in Hp. simpl in Hp.
      unfold keys, spawned in Hp.
      apply list_elem_of_fmap in Hp as ([q t0] & -> & Hq). simpl.
      apply list_elem_of_In, in_map_iff in Hq as (i & [= <- <-] & Hi).
      rewrite Hnext. simpl. lia. }
    split; [exact Hnew|]. split.
    + intros p Hp Hp'. apply Hnew in Hp'.
      unfold pids_below_next in Hbelow. rewrite Forall_forall in Hbelow.
      specialize (Hbelow p Hp). lia.
    + intros p Hp Hex. simpl. rewrite Hdel. simpl.
      apply elem_of_app. right. apply (list_elem_of_fmap_2 (fun p => (p, SIGTERM))).
      by apply list_elem_of_filter.
Qed.

Lemma graceful_restart_replaces_the_pool_witness :
  Forall (fun c => has_exited c = true) (children (sys two_exited))
  /\ pids_below_next two_exited
  /\ exists w',
       graceful_restart two_exited = Ok tt w'
       /\ worker_count (self w') = worker_count (self two_exited)
       /\ live w' = Z.max 0 (worker_count (self two_exited))
       /\ (forall p, p ∈ keys (workers (self w')) -> next_pid (sys two_exited) <= p)
       /\ (forall p, p ∈ keys (workers (self two_exited)) ->
            p ∉ keys (workers (self w')))
       /\ (forall p, p ∈ keys (workers (self two_exited)) ->
            exists_in (sys two_exited) p -> (p, SIGTERM) ∈ delivered (sys w')).
Proof.
  assert (H1 : Forall (fun c => has_exited c = true) (children (sys two_exited)))
    by (simpl; repeat constructor).
  assert (H2 : pids_below_next two_exited)
    by (unfold pids_below_next; simpl; repeat constructor).
  split; [exact H1|]. split; [exact H2|].
  exact (graceful_restart_replaces_the_pool two_exited H1 H2).
Defined.

Section MoreSetup.
Variable py_int : string -> option Z.
Variable os_bind : endpoint -> option errno.

(** X9: a listen address is split at its last colon: whatever the host
    part holds, further colons included, [host:port] with a numeric port
    that can be bound adds one TCP listener for [(host, port)] with the
    configured backlog. *)
Theorem tcp_address_is_split_at_the_last_colon opts host port_text n s :
  occurs ":" port_text = false ->
  py_int port_text = Some n ->
  os_bind (TcpEndpoint host n) = None ->
  bind_listener py_int os_bind opts (host +:+ ":" +:+ port_text) s
  = Ok tt (with_listener
             (mk_listener (Some (TcpEndpoint host n)) (Options.backlog opts) [] false) s).
Proof.
  intros Hp Hint Hbind. unfold bind_listener.
  by rewrite rsplit_colon_prefix, Hint, Hbind.
Qed.

(** X10: an address that contains a colon is never taken as the path of a
    UNIX socket: when what follows its last colon is no integer, binding
    it raises [ValueError] and adds no listener. *)
Theorem path_with_colon_is_not_a_unix_address opts before tail s :
  occurs ":" tail = false ->
  py_int tail = None ->
  bind_listener py_int os_bind opts (before +:+ ":" +:+ tail) s = Raised ValueError s.
Proof.
  intros Hp Hint. unfold bind_listener. by rewrite rsplit_colon_prefix, Hint.
Qed.

Lemma bind_listeners_app opts pre : forall post s,
  bind_listeners py_int os_bind opts (pre ++ post) s
  = match bind_listeners py_int os_bind opts pre s with
    | Ok _ s1 => bind_listeners py_int os_bind opts post s1
    | r => r
    end.
Proof.
  induction pre as [|a pre IH]; intros post s; [done|].
  rewrite <- app_comm_cons. cbn [bind_listeners]. unfold bind.
  destruct (bind_listener _ _ _ a s) as [[] s1|e s1|s1|]; try done.
Qed.

Lemma bind_listener_raises_before_binding opts a s e s' :
  bind_listener py_int os_bind opts a s = Raised e s' -> s' = s.
Proof.
  unfold bind_listener.
  destruct (rsplit_colon a) as [[host port]|]; [destruct (py_int port)|];
    try destruct (os_bind _); congruence.
Qed.

(** X11: [setup_sockets] stops at the first address that fails: the
    exception leaves it, the addresses after it are not bound, and the
    listeners bound before it stay in the list, open. *)
Theorem setup_sockets_stops_at_the_first_failure opts pre a rest s s1 e s2 :
  bind_listeners py_int os_bind opts pre s = Ok tt s1 ->
  bind_listener py_int os_bind opts a s1 = Raised e s2 ->
  bind_listeners py_int os_bind opts (pre ++ a :: rest) s = Raised e s1
  /\ exists ls,
       sockets s1 = sockets s ++ ls
       /\ length ls = length pre
       /\ Forall (fun l => listener_closed l = false) ls.
Proof.
  intros Hpre Ha. rewrite bind_listeners_app, Hpre. cbn [bind_listeners]. unfold bind.
  rewrite Ha, (bind_listener_raises_before_binding _ _ _ _ _ Ha). split; [done|].
  destruct (bind_listeners_every_address _ _ _ _ _ _ Hpre) as (ls & Hs & Hlen & Hall).
  exists ls. split; [done|]. split; [done|].
  eapply Forall_impl; [exact Hall|]. by intros l [Hl _].
Qed.
End MoreSetup.

Lemma tcp_address_is_split_at_the_last_colon_witness :
  let opts := demo_options false 3 in
  occurs ":" "8080" = false
  /\ decimal "8080" = Some 8080
  /\ any_address (TcpEndpoint "::1" 8080) = None
  /\ bind_listener decimal any_address opts "::1:8080" (init opts)
     = Ok tt (with_listener
                (mk_listener (Some (TcpEndpoint "::1" 8080)) (Options.backlog opts) [] false)
                (init opts)).
Proof.
  intros opts.
  assert (H1 : occurs ":" "8080" = false) by reflexivity.
  assert (H2 : decimal "8080" = Some 8080) by reflexivity.
  assert (H3 : any_address (TcpEndpoint "::1" 8080) = None) by reflexivity.
  split; [exact H1|]. split; [exact H2|]. split; [exact H3|].
  exact (tcp_address_is_split_at_the_last_colon decimal any_address opts
           "::1" "8080" 8080 (init opts) H1 H2 H3).
Defined.

Lemma path_with_colon_is_not_a_unix_address_witness :
  let opts := demo_options false 3 in
  occurs ":" "v2.sock" = false
  /\ decimal "v2.sock" = None
  /\ bind_listener decimal any_address opts "/run/app:v2.sock" (init opts)
     = Raised ValueError (init opts).
Proof.
  intros opts.
  assert (H1 : occurs ":" "v2.sock" = false) by reflexivity.
  assert (H2 : decimal "v2.sock" = None) by reflexivity.
  split; [exact H1|]. split; [exact H2|].
  exact (path_with_colon_is_not_a_unix_address decimal any_address opts
           "/run/app" "v2.sock" (init opts) H1 H2).
Defined.

Lemma setup_sockets_stops_at_the_first_failure_witness :
  let opts := demo_options false 3 in
  let first := mk_listener (Some (TcpEndpoint "0.0.0.0" 5000)) 1024 [] false in
  let s1 := with_listener first (init opts) in
  bind_listeners decimal any_address opts ["0.0.0.0:5000"] (init opts) = Ok tt s1
  /\ bind_listener decimal any_address opts "/run/app:v2.sock" s1 = Raised ValueError s1
  /\ bind_listeners decimal any_address opts
       (["0.0.0.0:5000"] ++ "/run/app:v2.sock" :: ["0.0.0.0:5001"]) (init opts)
     = Raised ValueError s1
  /\ exists ls,
       sockets s1 = sockets (init opts) ++ ls
       /\ length ls = length ["0.0.0.0:5000"]
       /\ Forall (fun l => listener_closed l = false) ls.
Proof.
  intros opts first s1.
  assert (H1 : bind_listeners decimal any_address opts ["0.0.0.0:5000"] (init opts)
               = Ok tt s1) by reflexivity.
  assert (H2 : bind_listener decimal any_address opts "/run/app:v2.sock" s1
               = Raised ValueError s1) by reflexivity.
  split; [exact H1|]. split; [exact H2|].
  exact (setup_sockets_stops_at_the_first_failure decimal any_address opts
           ["0.0.0.0:5000"] "/run/app:v2.sock" ["0.0.0.0:5001"] (init opts) s1
           ValueError s1 H1 H2).
Defined.

End MoreServerFacts.

(** * Further properties of the request handler *)

Section MoreHandlerFacts.
Import RequestHandler.
Context {P : Type}.
Variable feed_data : P -> string -> P * list event * option exn.
Variable date : string.
Implicit Types h : @RequestHandler.t P.

Lemma append_cons x (a b : string) : String x a +:+ b = String x (a +:+ b).
Proof. reflexivity. Qed.

Lemma append_assoc (a b c : string) : (a +:+ b) +:+ c = a +:+ b +:+ c.
Proof. induction a as [|x a IH]; [done|]. rewrite !append_cons. by f_equal. Qed.

Lemma append_empty (a : string) : a +:+ "" = a.
Proof. induction a as [|x a IH]; [done|]. rewrite append_cons. by f_equal. Qed.

Lemma prefix_HTTP (n : string) : String.prefix "HTTP_" ("HTTP_" +:+ n) = true.
Proof. destruct n; reflexivity. Qed.

Lemma on_header_stores h name value :
  environ (on_header name value h) = <[environ_key name := EStr value]> (environ h)
  /\ headers (on_header name value h)
     = headers h ++ [(replace "_" "-" (environ_key name), value)].
Proof. unfold on_header, environ_key. simpl. by case_bool_decide. Qed.

(** X12: a request header never overwrites another field of the
    environment: [on_header] changes no key other than [CONTENT_TYPE],
    [CONTENT_LENGTH] and the keys that begin with [HTTP_], so the request
    method, the path, the server and the remote address are out of its
    reach. *)
Theorem on_header_keeps_other_fields h name value k :
  k ∉ ["CONTENT_TYPE"; "CONTENT_LENGTH"] ->
  String.prefix "HTTP_" k = false ->
  environ (on_header name value h) !! k = environ h !! k.
Proof.
  intros Hk Hp. destruct (on_header_stores h name value) as [-> _].
  apply lookup_insert_ne. unfold environ_key. case_bool_decide as Hn.
  - intros Heq. apply Hk. by rewrite <- Heq.
  - intros Heq. rewrite <- Heq, prefix_HTTP in Hp. done.
Qed.

(** X13: header names that are equal once upper-cased and with [-]
    replaced by [_] share one key of the environment: of two such headers
    the application sees the value of the later one, while the ordered
    header list keeps both, under the same name. *)
Theorem header_names_that_normalise_alike_share_a_key h n1 v1 n2 v2 :
  replace "-" "_" (upper n1) = replace "-" "_" (upper n2) ->
  let h' := on_header n2 v2 (on_header n1 v1 h) in
  environ h' !! environ_key n1 = Some (EStr v2)
  /\ headers h'
     = headers h ++ [(replace "_" "-" (environ_key n1), v1);
                     (replace "_" "-" (environ_key n1), v2)].
Proof.
  intros Hn h'. subst h'.
  assert (Hkey : environ_key n2 = environ_key n1)
    by (unfold environ_key; by rewrite Hn).
  destruct (on_header_stores (on_header n1 v1 h) n2 v2) as [-> ->].
  destruct (on_header_stores h n1 v1) as [_ ->].
  rewrite Hkey, lookup_insert_eq, <- app_assoc. done.
Qed.

Lemma partition_parts sep s :
  let '(a, b) := partition sep s in
  occurs sep a = false /\ (s = a /\ b = "" \/ s = a +:+ String sep b).
Proof.
  induction s as [|c s IH]; simpl; [by auto|].
  case_bool_decide as Hc.
  - subst c. simpl. auto.
  - destruct (partition sep s) as [a b]. destruct IH as [Ha Hs]. simpl.
    rewrite bool_decide_eq_false_2 by done. simpl. split; [done|].
    destruct Hs as [[-> ->] | ->]; auto.
Qed.

(** X14: [on_url] splits the target at its first [?]: the path holds no
    [?], the raw target is kept whole, and the target is the path alone
    (with an empty query string) or the path, a [?] and the query string,
    which may itself hold further [?]. *)
Theorem on_url_splits_at_the_first_question_mark h url :
  exists path query,
    environ (on_url url h) !! "RAW_URI" = Some (EStr url)
    /\ environ (on_url url h) !! "PATH_INFO" = Some (EStr path)
    /\ environ (on_url url h) !! "QUERY_STRING" = Some (EStr query)
    /\ occurs "?" path = false
    /\ (url = path /\ query = "" \/ url = path +:+ "?" +:+ query).
Proof.
  pose proof (partition_parts "?" url) as Hp.
  destruct (partition "?" url) as [path query] eqn:Hpart.
  destruct Hp as [Hpath Hurl]. exists path, query.
  assert (He : environ (on_url url h)
               = <["QUERY_STRING" := EStr query]>
                   (<["PATH_INFO" := EStr path]>
                      (<["RAW_URI" := EStr url]> (environ h))))
    by (unfold on_url; by rewrite Hpart).
  rewrite He. split; [|split; [|split]].
  - rewrite !lookup_insert_ne by done. apply lookup_insert_eq.
  - rewrite lookup_insert_ne by done. apply lookup_insert_eq.
  - apply lookup_insert_eq.
  - done.
Qed.

Lemma length_append (a b : string) :
  String.length (a +:+ b) = (String.length a + String.length b)%nat.
Proof. induction a as [|x a IH]; [done|]. rewrite append_cons. simpl. by rewrite IH. Qed.

Lemma substring_prefix (b s : string) : substring 0 (String.length b) (b +:+ s) = b.
Proof.
  induction b as [|x b IH]; [by destruct s|]. rewrite append_cons. simpl. by rewrite IH.
Qed.

Lemma substring_nothing n : forall s, substring n 0 s = "".
Proof. induction n as [|n IH]; intros [|c s]; simpl; auto. Qed.

Lemma bytes_write_at_the_end data b :
  bytes_write data b (String.length b)
  = (b +:+ data, (String.length b + String.length data)%nat).
Proof.
  unfold bytes_write. rewrite Nat.sub_diag. simpl replicate. simpl fold_right.
  rewrite substring_prefix.
  replace (String.length b - (String.length b + String.length data))%nat with 0%nat by lia.
  by rewrite substring_nothing, append_empty.
Qed.

Lemma body_callbacks ds : forall h,
  body_pos h = String.length (body h) ->
  exists h',
    callbacks date (map Body ds) h = Ok tt h'
    /\ body h' = body h +:+ joined ds
    /\ body_pos h' = String.length (body h').
Proof.
  induction ds as [|d ds IH]; intros h Hpos.
  - exists h. simpl. by rewrite append_empty.
  - cbn [map callbacks callback]. unfold lift, on_body.
    rewrite Hpos, bytes_write_at_the_end.
    destruct (IH (with_body (body h +:+ d)
                    (String.length (body h) + String.length d) h)) as (h' & -> & Hb & Hp).
    + simpl. by rewrite length_append.
    + exists h'. split; [done|]. split; [|done]. rewrite Hb. simpl.
      by rewrite append_assoc.
Qed.

(** X15: the body chunks of a message accumulate in order: after
    message-begin and any sequence of body events, the buffer holds the
    chunks one after the other, and its position is at the end. *)
Theorem body_chunks_accumulate_in_order h ds :
  exists h',
    callbacks date (MessageBegin :: map Body ds) h = Ok tt h'
    /\ body h' = joined ds
    /\ body_pos h' = String.length (joined ds).
Proof.
  cbn [callbacks callback]. unfold lift.
  destruct (body_callbacks ds (on_message_begin h)) as (h' & Hcb & Hb & Hp); [done|].
  exists h'. split; [exact Hcb|]. rewrite Hp, Hb. done.
Qed.

(** X16: a header [Expect: 100-continue], in any letter case of the name
    and of the value, makes [on_headers_complete] write the interim line
    [HTTP/1.1 100 Continue] and the blank line to the client; no response
    is stored by that. *)
Theorem expect_100_continue_is_answered_at_headers_complete h name value method :
  replace "-" "_" (upper name) = "EXPECT" ->
  lower value = "100-continue" ->
  sent (client (on_headers_complete method (on_header name value h)))
  = sent (client h) +:+ "HTTP/1.1 100 Continue" +:+ CRLF +:+ CRLF
  /\ response (on_headers_complete method (on_header name value h)) = response h.
Proof.
  intros Hname Hvalue.
  assert (Hkey : environ_key name = "HTTP_EXPECT")
    by (unfold environ_key; by rewrite Hname).
  unfold on_headers_complete.
  set (h1 := with_environ _ (on_header name value h)).
  assert (He : expects_continue h1 = true).
  { unfold expects_continue.
    change (environ h1)
      with (<["REQUEST_METHOD" := EStr method]> (environ (on_header name value h))).
    destruct (on_header_stores h name value) as [-> _]. rewrite Hkey.
    rewrite lookup_insert_ne by done. rewrite lookup_insert_eq.
    by rewrite Hvalue. }
  rewrite He. split; reflexivity.
Qed.

Lemma send_body_yields cs : forall h,
  exists h',
    send_body (yields cs) h = Ok tt h'
    /\ sent (client h') = sent (client h) +:+ joined cs
    /\ response h' = response h
    /\ closed (client h') = closed (client h).
Proof.
  induction cs as [|c cs IH]; intros h.
  - exists h. simpl. by rewrite append_empty.
  - cbn [yields foldr send_body]. fold (yields cs). case_bool_decide as Hc.
    + subst c. destruct (IH h) as (h' & -> & Hs & Hr & Hcl). by exists h'.
    + destruct (IH (sendall c h)) as (h' & -> & Hs & Hr & Hcl). exists h'.
      split; [done|]. rewrite Hs, Hr, Hcl. simpl. by rewrite append_assoc.
Qed.

(** X17: for a stored response and an iterable that yields chunks and
    ends, [write_response] returns, having written the status line, the
    stored headers followed by a [Date] header if there was none and by a
    [Server] header in any case, the blank line, and the chunks unchanged
    and in order; the stored header list has grown by what was added. *)
Theorem write_response_sends_headers_then_body h status hdrs cs :
  response h = Some (status, hdrs) ->
  let sent_headers := final_headers date (Options.version (options h)) hdrs in
  exists h',
    write_response date (yields cs) h = Ok tt h'
    /\ sent (client h')
       = sent (client h) +:+ header_block status sent_headers +:+ joined cs
    /\ response h' = Some (status, sent_headers).
Proof.
  intros Hr sh. unfold write_response. rewrite Hr.
  fold is_date. fold (final_headers date (Options.version (options h)) hdrs). fold sh.
  fold (header_block status sh).
  destruct (send_body_yields cs
              (sendall (header_block status sh) (with_response (Some (status, sh)) h)))
    as (h' & -> & Hs & Hresp & _).
  exists h'. split; [done|]. rewrite Hs, Hresp. simpl. by rewrite append_assoc.
Qed.

(** What [handle_request] does once the application has raised an
    [Exception] while a response is stored. *)
Lemma handle_request_when_the_app_raised h e h1 status hdrs :
  run_app (app h (environ h) (body h)) (entered h) = Raised e h1 ->
  is_Exception e = true ->
  response h1 = Some (status, hdrs) ->
  let sent_headers := final_headers date (Options.version (options h1)) hdrs in
  exists h',
    handle_request date h = Raised (UnboundLocalError "resp_iter") h'
    /\ sent (client h')
       = (sent (client h1) +:+ header_block status sent_headers)
         +:+ "Internal Server Error"
    /\ response h' = Some (status, sent_headers).
Proof.
  intros Hrun He Hr sh. unfold handle_request.
  change (app (entered h)) with (app h).
  change (environ (entered h)) with (environ h).
  change (body (entered h)) with (body h).
  rewrite Hrun, He. unfold on_exception, bind.
  rewrite bool_decide_eq_true_2 by (by rewrite Hr).
  unfold write_response. rewrite Hr.
  fold is_date. fold (final_headers date (Options.version (options h1)) hdrs). fold sh.
  fold (header_block status sh). cbn [send_body].
  rewrite bool_decide_eq_false_2 by done.
  eexists. split; [reflexivity|]. split; reflexivity.
Qed.

(** X18: when the application calls [start_response] and then raises an
    [Exception] before it returns, the client receives the status and
    headers of the application (not a 500 status) with the body
    [Internal Server Error]. *)
Theorem exception_after_start_response_keeps_the_status h status hdrs e k :
  response h = None ->
  app h (environ h) (body h) = Start status hdrs None (AppRaise e) k ->
  is_Exception e = true ->
  let sent_headers := final_headers date (Options.version (options h)) hdrs in
  exists h',
    final_state (handle_request date h) = Some h'
    /\ sent (client h')
       = (sent (client h) +:+ header_block status sent_headers)
         +:+ "Internal Server Error".
Proof.
  intros Hr Happ He sh.
  destruct (handle_request_when_the_app_raised h e
              (with_response (Some (status, hdrs)) (entered h)) status hdrs)
    as (h' & Hh & Hs & _).
  - rewrite Happ. cbn [run_app]. unfold start_response.
    change (response (entered h)) with (response h). rewrite Hr.
    by rewrite bool_decide_eq_false_2 by (intros [? ?]; done).
  - exact He.
  - reflexivity.
  - exists h'. rewrite Hh. split; [done|]. exact Hs.
Qed.

(** X19: an application that calls [start_response] twice without
    [exc_info] and lets the [AssertionError] of the second call propagate
    gets one status line on the wire, that of its first call, followed by
    the body [Internal Server Error]; the status of the second call is
    neither stored nor sent. *)
Theorem second_start_response_is_refused h s1 hs1 s2 hs2 k_ok k_raised :
  response h = None ->
  app h (environ h) (body h)
  = Start s1 hs1 None
      (Start s2 hs2 None k_ok
         (AppRaise (AssertionError "start_response called a second time without exc_info")))
      k_raised ->
  let sent_headers := final_headers date (Options.version (options h)) hs1 in
  exists h',
    final_state (handle_request date h) = Some h'
    /\ sent (client h')
       = (sent (client h) +:+ header_block s1 sent_headers)
         +:+ "Internal Server Error"
    /\ response h' = Some (s1, sent_headers).
Proof.
  intros Hr Happ sh.
  destruct (handle_request_when_the_app_raised h
              (AssertionError "start_response called a second time without exc_info")
              (with_response (Some (s1, hs1)) (entered h)) s1 hs1)
    as (h' & Hh & Hs & Hresp).
  - rewrite Happ. cbn [run_app]. unfold start_response.
    change (response (entered h)) with (response h). rewrite Hr.
    rewrite bool_decide_eq_false_2 by (intros [? ?]; done).
    cbn [run_app]. unfold start_response.
    by rewrite bool_decide_eq_true_2 by (by eexists).
  - reflexivity.
  - reflexivity.
  - exists h'. rewrite Hh. split; [done|]. split; [exact Hs|exact Hresp].
Qed.

(** X20: the stored response is never cleared between the requests of a
    connection.  On a handler that holds a response already, an
    application that calls [start_response] as usual is refused, and when
    it lets the exception propagate the client receives the earlier
    status and headers again, with the body [Internal Server Error]. *)
Theorem later_request_on_a_connection_gets_the_first_status h status hdrs s2 hs2 k_ok e :
  response h = Some (status, hdrs) ->
  app h (environ h) (body h) = Start s2 hs2 None k_ok (AppRaise e) ->
  is_Exception e = true ->
  let sent_headers := final_headers date (Options.version (options h)) hdrs in
  exists h',
    final_state (handle_request date h) = Some h'
    /\ sent (client h')
       = (sent (client h) +:+ header_block status sent_headers)
         +:+ "Internal Server Error"
    /\ response h' = Some (status, sent_headers).
Proof.
  intros Hr Happ He sh.
  destruct (handle_request_when_the_app_raised h e (entered h) status hdrs)
    as (h' & Hh & Hs & Hresp).
  - rewrite Happ. cbn [run_app]. unfold start_response.
    change (response (entered h)) with (response h).
    by rewrite bool_decide_eq_true_2 by (by rewrite Hr).
  - exact He.
  - exact Hr.
  - exists h'. rewrite Hh. split; [done|]. split; [exact Hs|exact Hresp].
Qed.

(** X21: whenever the application raises at once, [handle_request] ends
    with [UnboundLocalError] for [resp_iter], raised by its [finally]
    clause in place of the exception of the application; when that one
    is no [Exception] (a [SystemExit], say) nothing is written and no
    response is stored. *)
Theorem exception_of_the_application_is_replaced h e :
  app h (environ h) (body h) = AppRaise e ->
  exists h',
    handle_request date h = Raised (UnboundLocalError "resp_iter") h'
    /\ (is_Exception e = false ->
        sent (client h') = sent (client h) /\ response h' = response h).
Proof.
  intros Happ. unfold handle_request.
  change (app (entered h)) with (app h).
  change (environ (entered h)) with (environ h).
  change (body (entered h)) with (body h).
  rewrite Happ. cbn [run_app].
  destruct (is_Exception e) eqn:He.
  - pose proof (settles_on_exception date (entered h)) as Hs.
    destruct (on_exception date (entered h)) as [[] h'|e' h'|h'|]; try done;
      eexists; (split; [reflexivity|done]).
  - eexists. split; [reflexivity|]. done.
Qed.

Lemma callbacks_raise_callback_error evs : forall h e h',
  callbacks date evs h = Raised e h' -> e = HttpParserCallbackError.
Proof.
  induction evs as [|ev evs IH]; intros h e h'; cbn [callbacks]; [done|].
  destruct (callback date ev h) as [[] h1|e1 h1|h1|]; try done.
  - apply IH.
  - by intros [= <- _].
Qed.

Lemma parser_feed_data_outcomes data h :
  parse_errors_only feed_data ->
  match parser_feed_data feed_data date data h with
  | Ok _ _ => True
  | Raised e _ => is_HttpParserError e = true
  | _ => False
  end.
Proof.
  intros Hp. pose proof (settles_parser_feed_data feed_data date data h) as Hs.
  unfold parser_feed_data in *. specialize (Hp (parser h) data).
  destruct (feed_data (parser h) data) as [[p evs] err]. simpl in Hp.
  destruct (callbacks date evs (with_parser p h)) as [[] h'|e h'|h'|] eqn:Hc; try done.
  - by destruct err.
  - by rewrite (callbacks_raise_callback_error _ _ _ _ Hc).
Qed.

Lemma handle_loop_ends inc : forall h,
  parse_errors_only feed_data ->
  Exists (fun ev => ends_reading ev = true) inc ->
  match handle_loop feed_data date inc h with
  | Ok _ _ => True
  | Raised e _ => is_socket_error e = true
  | _ => False
  end.
Proof.
  induction inc as [|ev inc IH]; intros h Hp Hends; [by apply Exists_nil in Hends|].
  cbn [handle_loop]. destruct ev as [data| |e]; [|done..].
  case_bool_decide as Hd; [done|].
  pose proof (parser_feed_data_outcomes data (with_incoming inc h) Hp) as Ho.
  destruct (parser_feed_data _ _ _ _) as [[] h'|e h'|h'|]; try done.
  - destruct (Options.disable_keepalive (options h')); [done|].
    apply IH; [done|]. apply Exists_cons in Hends as [He|He]; [|done].
    simpl in He. by apply bool_decide_eq_true in He.
  - by rewrite Ho.
Qed.

(** X22: with a parser that fails only with [HttpParserError]s, [handle]
    returns normally and with the client socket closed on every
    connection whose peer closes at some point, or on which a [recv]
    fails: no socket error and no parse error leaves [handle]. *)
Theorem handle_returns_once_the_peer_has_closed h :
  parse_errors_only feed_data ->
  Exists (fun ev => ends_reading ev = true) (incoming (client h)) ->
  exists h', handle feed_data date h = Ok tt h' /\ closed (client h') = true.
Proof.
  intros Hp Hends. unfold handle.
  pose proof (handle_loop_ends (incoming (client h)) h Hp Hends) as Ho.
  destruct (handle_loop _ _ _ _) as [[] h'|e h'|h'|]; try done.
  - by eexists.
  - rewrite Ho. by eexists.
Qed.
End MoreHandlerFacts.

(** * Further properties of the Worker *)

Section MoreWorkerFacts.
Import Worker.
Context {P : Type}.
Variable feed_data : P -> string -> P * list event * option exn.
Variable date : string.
Variable parser0 : P.
Implicit Types w : @Worker.t P.

Lemma serve_counts q : forall w w',
  final_state (serve feed_data date parser0 q w) = Some w' ->
  requests_processed w <= requests_processed w'
  /\ requests_processed w' <= Z.max (requests_processed w) (Options.max_requests (options w))
  /\ requests_processed w' - requests_processed w
     = Z.of_nat (length (handlers w')) - Z.of_nat (length (handlers w))
  /\ options w' = options w.
Proof.
  induction q as [|ev q IH]; intros w w'; cbn [serve];
    case_bool_decide as Hquota; try (simpl; intros [= <-]; repeat split; lia).
  destruct ev as [c|e].
  - set (w1 := count_request (accepted q w)).
    assert (Hstep : forall h w2,
              final_state (serve feed_data date parser0 q (record_handler h w1)) = Some w2 ->
              requests_processed w <= requests_processed w2
              /\ requests_processed w2
                 <= Z.max (requests_processed w) (Options.max_requests (options w))
              /\ requests_processed w2 - requests_processed w
                 = Z.of_nat (length (handlers w2)) - Z.of_nat (length (handlers w))
              /\ options w2 = options w).
    { intros h w2 Hf. apply IH in Hf as (H1 & H2 & H3 & H4). unfold w1 in *. simpl in *.
      rewrite length_app in H3. simpl in H3. repeat split; [lia..|done]. }
    assert (Hstop : forall h,
              requests_processed w <= requests_processed (record_handler h w1)
              /\ requests_processed (record_handler h w1)
                 <= Z.max (requests_processed w) (Options.max_requests (options w))
              /\ requests_processed (record_handler h w1) - requests_processed w
                 = Z.of_nat (length (handlers (record_handler h w1)))
                   - Z.of_nat (length (handlers w))
              /\ options (record_handler h w1) = options w).
    { intros h. unfold w1. simpl. rewrite length_app. simpl. repeat split; lia. }
    destruct (RequestHandler.handle _ _ _) as [[] h|e h|h|]; try done.
    + apply Hstep.
    + destruct e as [n| | | | | | | | | | | |];
        try (simpl; intros [= <-]; apply Hstop).
      destruct (transient n); [apply Hstep|]. simpl. intros [= <-]. apply Hstop.
    + simpl. intros [= <-]. apply Hstop.
  - destruct (transient e).
    + intros Hf. apply IH in Hf. exact Hf.
    + simpl. intros [= <-]. simpl. repeat split; lia.
Qed.

(** X23: however the accept loop ends (it returns, raises or waits), the
    counter has grown by exactly the number of connections accepted and
    handed to a handler, and it is not above [max_requests] unless it was
    so before; accept calls that fail are not counted. *)
Theorem accept_loop_never_exceeds_the_quota w w' :
  final_state (accept_loop feed_data date parser0 w) = Some w' ->
  requests_processed w <= requests_processed w'
  /\ requests_processed w' <= Z.max (requests_processed w) (Options.max_requests (options w))
  /\ requests_processed w' - requests_processed w
     = Z.of_nat (length (handlers w')) - Z.of_nat (length (handlers w)).
Proof.
  unfold accept_loop. destruct (sockets w) as [|l ls].
  - case_bool_decide; simpl; intros [= <-]; repeat split; lia.
  - intros Hf. apply serve_counts in Hf as (H1 & H2 & H3 & _). done.
Qed.
End MoreWorkerFacts.

(** * The further properties on concrete inputs *)

Section MoreScenarios.
Import RequestHandler.

Lemma on_header_keeps_other_fields_witness :
  let h := on_message_begin (fresh_handler app_hello false [] []) in
  ("REMOTE_ADDR" ∉ ["CONTENT_TYPE"; "CONTENT_LENGTH"])
  /\ String.prefix "HTTP_" "REMOTE_ADDR" = false
  /\ environ (on_header "Remote-Addr" "192.0.2.1" h) !! "REMOTE_ADDR"
     = environ h !! "REMOTE_ADDR".
Proof.
  intros h.
  assert (H1 : "REMOTE_ADDR" ∉ ["CONTENT_TYPE"; "CONTENT_LENGTH"]).
  { intros Hin. apply elem_of_cons in Hin as [Hin|Hin]; [discriminate|].
    apply list_elem_of_singleton in Hin. discriminate. }
  assert (H2 : String.prefix "HTTP_" "REMOTE_ADDR" = false) by reflexivity.
  split; [exact H1|]. split; [exact H2|].
  exact (on_header_keeps_other_fields h "Remote-Addr" "192.0.2.1" "REMOTE_ADDR" H1 H2).
Defined.

Lemma header_names_that_normalise_alike_share_a_key_witness :
  let h := on_message_begin (fresh_handler app_hello false [] []) in
  let h' := on_header "x_test" "second" (on_header "X-Test" "first" h) in
  replace "-" "_" (upper "X-Test") = replace "-" "_" (upper "x_test")
  /\ environ h' !! environ_key "X-Test" = Some (EStr "second")
  /\ headers h'
     = headers h ++ [(replace "_" "-" (environ_key "X-Test"), "first");
                     (replace "_" "-" (environ_key "X-Test"), "second")].
Proof.
  intros h h'.
  assert (H1 : replace "-" "_" (upper "X-Test") = replace "-" "_" (upper "x_test"))
    by reflexivity.
  split; [exact H1|].
  exact (header_names_that_normalise_alike_share_a_key h "X-Test" "first" "x_test"
           "second" H1).
Defined.

Lemma expect_100_continue_is_answered_at_headers_complete_witness :
  let h := on_message_begin (fresh_handler app_hello false [] []) in
  let h' := on_headers_complete "PUT" (on_header "expect" "100-Continue" h) in
  replace "-" "_" (upper "expect") = "EXPECT"
  /\ lower "100-Continue" = "100-continue"
  /\ sent (client h') = sent (client h) +:+ "HTTP/1.1 100 Continue" +:+ CRLF +:+ CRLF
  /\ response h' = response h.
Proof.
  intros h h'.
  assert (H1 : replace "-" "_" (upper "expect") = "EXPECT") by reflexivity.
  assert (H2 : lower "100-Continue" = "100-continue") by reflexivity.
  split; [exact H1|]. split; [exact H2|].
  exact (expect_100_continue_is_answered_at_headers_complete h "expect" "100-Continue"
           "PUT" H1 H2).
Defined.

Lemma write_response_sends_headers_then_body_witness :
  let h := with_response (Some ("200 OK", [("Content-Type", "text/plain")]))
             (fresh_handler app_hello false [] []) in
  let sent_headers :=
    final_headers demo_date (Options.version (options h)) [("Content-Type", "text/plain")] in
  response h = Some ("200 OK", [("Content-Type", "text/plain")])
  /\ exists h',
       write_response demo_date (yields ["he"; ""; "llo"]) h = Ok tt h'
       /\ sent (client h')
          = sent (client h) +:+ header_block "200 OK" sent_headers
              +:+ joined ["he"; ""; "llo"]
       /\ response h' = Some ("200 OK", sent_headers).
Proof.
  intros h sent_headers.
  assert (H1 : response h = Some ("200 OK", [("Content-Type", "text/plain")]))
    by reflexivity.
  split; [exact H1|].
  exact (write_response_sends_headers_then_body demo_date h "200 OK"
           [("Content-Type", "text/plain")] ["he"; ""; "llo"] H1).
Defined.

Lemma exception_after_start_response_keeps_the_status_witness :
  let h := fresh_handler app_raises_after_start false [] [] in
  let sent_headers :=
    final_headers demo_date (Options.version (options h)) [("Content-Type", "text/plain")] in
  response h = None
  /\ exists h',
       final_state (handle_request demo_date h) = Some h'
       /\ sent (client h')
          = (sent (client h) +:+ header_block "200 OK" sent_headers)
            +:+ "Internal Server Error".
Proof.
  intros h sent_headers.
  assert (H1 : response h = None) by reflexivity.
  split; [exact H1|].
  exact (exception_after_start_response_keeps_the_status demo_date h "200 OK"
           [("Content-Type", "text/plain")] (AppException "RuntimeError")
           (AppRaise (AssertionError "start_response called a second time without exc_info"))
           H1 eq_refl eq_refl).
Defined.

Lemma second_start_response_is_refused_witness :
  let h := fresh_handler app_starts_twice false [] [] in
  let sent_headers := final_headers demo_date (Options.version (options h)) [] in
  response h = None
  /\ exists h',
       final_state (handle_request demo_date h) = Some h'
       /\ sent (client h')
          = (sent (client h) +:+ header_block "200 OK" sent_headers)
            +:+ "Internal Server Error"
       /\ response h' = Some ("200 OK", sent_headers).
Proof.
  intros h sent_headers.
  assert (H1 : response h = None) by reflexivity.
  split; [exact H1|].
  exact (second_start_response_is_refused demo_date h "200 OK" [] "404 Not Found" []
           (Return Stop false)
           (AppRaise (AssertionError "start_response called a second time without exc_info"))
           H1 eq_refl).
Defined.

Lemma later_request_on_a_connection_gets_the_first_status_witness :
  let h := answered_handler in
  let stored := final_headers demo_date "0.1.0" [("Content-Type", "text/plain")] in
  let sent_headers := final_headers demo_date (Options.version (options h)) stored in
  response h = Some ("200 OK", stored)
  /\ exists h',
       final_state (handle_request demo_date h) = Some h'
       /\ sent (client h')
          = (sent (client h) +:+ header_block "200 OK" sent_headers)
            +:+ "Internal Server Error"
       /\ response h' = Some ("200 OK", sent_headers).
Proof.
  intros h stored sent_headers.
  assert (H1 : response h = Some ("200 OK", stored)) by reflexivity.
  split; [exact H1|].
  exact (later_request_on_a_connection_gets_the_first_status demo_date h "200 OK" stored
           "200 OK" [("Content-Type", "text/plain")] (Return (Yield "hello" Stop) false)
           (AssertionError "start_response called a second time without exc_info")
           H1 eq_refl eq_refl).
Defined.

Lemma exception_of_the_application_is_replaced_witness :
  let h := fresh_handler app_exits false [] [] in
  app h (environ h) (body h) = AppRaise (AppBaseException "SystemExit")
  /\ exists h',
       handle_request demo_date h = Raised (UnboundLocalError "resp_iter") h'
       /\ (is_Exception (AppBaseException "SystemExit") = false ->
           sent (client h') = sent (client h) /\ response h' = response h).
Proof.
  intros h.
  assert (H1 : app h (environ h) (body h) = AppRaise (AppBaseException "SystemExit"))
    by reflexivity.
  split; [exact H1|].
  exact (exception_of_the_application_is_replaced demo_date h
           (AppBaseException "SystemExit") H1).
Defined.

Lemma handle_returns_once_the_peer_has_closed_witness :
  let h := RequestHandler.init tt app_hello
             (demo_connection [RecvData ("GET / HTTP/1.1" +:+ CRLF +:+ CRLF); RecvClosed])
             ("10.0.0.7", 40000) (demo_options false 3) in
  parse_errors_only request_per_chunk
  /\ Exists (fun ev => ends_reading ev = true) (incoming (client h))
  /\ exists h', handle request_per_chunk demo_date h = Ok tt h' /\ closed (client h') = true.
Proof.
  intros h.
  assert (H1 : parse_errors_only request_per_chunk) by (intros p data; exact I).
  assert (H2 : Exists (fun ev => ends_reading ev = true) (incoming (client h)))
    by (simpl; apply Exists_cons_tl, Exists_cons_hd; reflexivity).
  split; [exact H1|]. split; [exact H2|].
  exact (handle_returns_once_the_peer_has_closed request_per_chunk demo_date h H1 H2).
Defined.

Lemma accept_loop_never_exceeds_the_quota_witness :
  let w := demo_worker [AcceptError EAGAIN;
                        AcceptConn silent_connection;
                        AcceptError ECONNRESET;
                        AcceptConn one_request_connection] in
  exists w',
    final_state (Worker.accept_loop scripted demo_date one_request w) = Some w'
    /\ Worker.requests_processed w <= Worker.requests_processed w'
    /\ Worker.requests_processed w'
       <= Z.max (Worker.requests_processed w)
                (Options.max_requests (Worker.options w))
    /\ Worker.requests_processed w' - Worker.requests_processed w
       = Z.of_nat (length (Worker.handlers w'))
         - Z.of_nat (length (Worker.handlers w)).
Proof.
  intros w. eexists. split; [vm_compute; reflexivity|].
  apply (accept_loop_never_exceeds_the_quota scripted demo_date one_request w).
  vm_compute. reflexivity.
Defined.

End MoreScenarios.
